(** * Affiliation classifier and paper filter of [pubmed_papers]

    Shallow embedding of [pubmed_papers/filters.py], of the [Author] and
    [Paper] dataclasses of [pubmed_papers/models.py], of the PubMed client
    of [pubmed_papers/api.py] (requests, search pagination, batching, and
    the parsing of authors and dates) and of [fetch_papers] and the CSV rows
    of [pubmed_papers/cli.py]. Network replies and XML parsing are left as
    parameters.

    Python [str] values are modelled as lists of characters whose code points
    lie in 0..255 (Latin-1): the character predicates below ([\s], [\w],
    [str.lower], [str.isspace]) follow CPython on that range. *)

From Stdlib Require Import Ascii String List Bool Arith ZArith Lia.
Import ListNotations.
Open Scope bool_scope.

(** ** Python strings *)

Definition str := list ascii.

(** A Rocq string literal as a Python [str]. *)
Definition lit (s : string) : str := list_ascii_of_string s.

Definition code (c : ascii) : nat := nat_of_ascii c.

Definition in_range (lo hi n : nat) : bool := (lo <=? n) && (n <=? hi).

(** [str.isspace] and the regex class [\s] (they agree on Latin-1). *)
Definition is_space (c : ascii) : bool :=
  let n := code c in
  in_range 9 13 n || in_range 28 32 n || (n =? 133) || (n =? 160).

(** The regex class [\w] of a [str] pattern: alphanumeric or underscore. *)
Definition is_word (c : ascii) : bool :=
  let n := code c in
  in_range 48 57 n || in_range 65 90 n || (n =? 95) || in_range 97 122 n
  || (n =? 170) || in_range 178 179 n || (n =? 181) || in_range 185 186 n
  || in_range 188 190 n || in_range 192 214 n || in_range 216 246 n
  || in_range 248 255 n.

(** [str.lower] on one character. *)
Definition lower_char (c : ascii) : ascii :=
  let n := code c in
  if in_range 65 90 n || in_range 192 214 n || in_range 216 222 n
  then ascii_of_nat (n + 32) else c.

Definition lower (s : str) : str := map lower_char s.

(** [str.strip()] with no argument. *)
Fixpoint lstrip (s : str) : str :=
  match s with
  | [] => []
  | c :: s' => if is_space c then lstrip s' else s
  end.

Definition strip (s : str) : str := rev (lstrip (rev (lstrip s))).

(** [str.title()]. It is only ever applied to the entries of the company
    lexicon, which are ASCII, so cased characters are the ASCII letters. *)
Definition is_cased (c : ascii) : bool :=
  in_range 65 90 (code c) || in_range 97 122 (code c).

Definition upper_char (c : ascii) : ascii :=
  if in_range 97 122 (code c) then ascii_of_nat (code c - 32) else c.

Fixpoint title_from (prev_cased : bool) (s : str) : str :=
  match s with
  | [] => []
  | c :: s' =>
      (if is_cased c then (if prev_cased then lower_char c else upper_char c)
       else c) :: title_from (is_cased c) s'
  end.

Definition str_title (s : str) : str := title_from false s.

(** [needle in hay]. *)
Fixpoint prefixb (p s : str) : bool :=
  match p, s with
  | [], _ => true
  | a :: p', b :: s' => Ascii.eqb a b && prefixb p' s'
  | _ :: _, [] => false
  end.

Fixpoint contains (needle hay : str) : bool :=
  prefixb needle hay
  || match hay with
     | [] => false
     | _ :: hay' => contains needle hay'
     end.

(** [any(k in s for k in keywords)]. *)
Definition contains_any (keywords : list str) (s : str) : bool :=
  existsb (fun k => contains k s) keywords.

(** Python truthiness of a [str] and of a list. *)
Definition is_empty {A} (l : list A) : bool :=
  match l with [] => true | _ => false end.

(** ** Lexicons (module constants of [filters.py]), in source order *)

Definition ACADEMIC_KEYWORDS : list str := map lit
  ["university"; "college"; "institute"; "school"; "academy"; "academia";
   "faculty"; "department"; "dept"; "laboratory"; "research center";
   "hospital"; "clinic"; "medical center"; "health center"]%string.

Definition PHARMA_BIOTECH_KEYWORDS : list str := map lit
  ["pharma"; "biotech"; "therapeutics"; "bioscience"; "biopharm";
   "laboratories"; "labs"; "inc"; "llc"; "ltd"; "gmbh"; "corp"; "co."; "plc";
   "biopharma"; "genomics"; "biologics"; "biotechnology"]%string.

(** The set [COMMON_PHARMA_BIOTECH_COMPANIES]; its iteration order is that of
    CPython's string hashing, so the classifier below takes the iteration order
    as a parameter. *)
Definition COMMON_PHARMA_BIOTECH_COMPANIES : list str := map lit
  ["pfizer"; "merck"; "novartis"; "roche"; "johnson & johnson"; "j&j"; "jnj";
   "sanofi"; "glaxosmithkline"; "gsk"; "astrazeneca"; "gilead"; "amgen";
   "abbvie"; "lilly"; "eli lilly"; "bristol-myers squibb"; "bms"; "boehringer";
   "moderna"; "biogen"; "regeneron"; "bayer"; "vertex"; "novo nordisk";
   "takeda"; "astellas"; "daiichi sankyo"; "eisai"; "genentech"; "celgene";
   "alexion"; "incyte"; "biomarin"; "alkermes"; "ionis"; "illumina";
   "10x genomics"]%string.

Definition NON_ACADEMIC_EMAIL_DOMAINS : list str := map lit
  [".com"; ".co"; ".io"; ".ai"; ".bio"; ".net"]%string.

Definition ACADEMIC_EMAIL_DOMAINS : list str := map lit
  [".edu"; ".ac."; ".gov"]%string.

(** ** The [re] patterns: backtracking matcher

    Patterns are built from single-character classes, sequencing, ordered
    alternation, a greedy optional group [(...)?] and a greedy one-or-more
    repetition of a character class, as [sre] runs them: the matcher takes a
    continuation and backtracks by trying the alternatives in order. *)

Inductive regex :=
| REps
| RChar (p : ascii -> bool)
| RSeq (r1 r2 : regex)
| RAlt (r1 r2 : regex)
| ROpt (r : regex)
| RPlus (p : ascii -> bool).

(** [p*], greedy: longest run first, then shorter ones. *)
Fixpoint star_class (p : ascii -> bool) (s : str) (k : str -> option str)
  : option str :=
  match s with
  | [] => k []
  | c :: s' =>
      if p c then
        match star_class p s' k with
        | Some r => Some r
        | None => k s
        end
      else k s
  end.

Fixpoint mtch (r : regex) (s : str) (k : str -> option str) : option str :=
  match r with
  | REps => k s
  | RChar p => match s with c :: s' => if p c then k s' else None | [] => None end
  | RSeq r1 r2 => mtch r1 s (fun s' => mtch r2 s' k)
  | RAlt r1 r2 =>
      match mtch r1 s k with Some x => Some x | None => mtch r2 s k end
  | ROpt r1 =>
      match mtch r1 s k with Some x => Some x | None => k s end
  | RPlus p =>
      match s with c :: s' => if p c then star_class p s' k else None | [] => None end
  end.

(** [pattern.search(s).group(0)]: the first start position with a match; the
    matched text is the prefix of the remaining input that the match consumed. *)
Fixpoint search (r : regex) (s : str) : option str :=
  match mtch r s (fun rest => Some rest) with
  | Some rest => Some (firstn (length s - length rest) s)
  | None =>
      match s with
      | [] => None
      | _ :: s' => search r s'
      end
  end.

(** Case-insensitive literal character (flag [re.IGNORECASE]). *)
Definition ieq (c x : ascii) : bool := Ascii.eqb (lower_char x) (lower_char c).

(** [re.escape(l)] under [re.IGNORECASE]. *)
Fixpoint lit_ic (l : str) : regex :=
  match l with
  | [] => REps
  | c :: l' => RSeq (RChar (ieq c)) (lit_ic l')
  end.

(** [r'(\w+\s+)?' + re.escape(company) + r'(\s+\w+)?'], [re.IGNORECASE]. *)
Definition company_pattern (company : str) : regex :=
  RSeq (ROpt (RSeq (RPlus is_word) (RPlus is_space)))
       (RSeq (lit_ic company) (ROpt (RSeq (RPlus is_space) (RPlus is_word)))).

(** [[A-Z]] and [[A-Za-z0-9\-\s]] under [re.IGNORECASE]. *)
Definition az_ic (c : ascii) : bool :=
  in_range 65 90 (code c) || in_range 97 122 (code c).

Definition suffix_body (c : ascii) : bool :=
  az_ic c || in_range 48 57 (code c) || (code c =? 45) || is_space c.

Fixpoint alts (rs : list regex) : regex :=
  match rs with
  | [] => REps
  | [r] => r
  | r :: rs' => RAlt r (alts rs')
  end.

Definition SUFFIXES : list str := map lit
  ["Inc."; "Inc"; "Ltd."; "Ltd"; "LLC"; "GmbH"; "Corp."; "Corp"; "S.A.";
   "PLC"; "Co."; "Co"; "Limited"]%string.

(** [r'([A-Z][A-Za-z0-9\-\s]+)\s+(?:Inc\.|Inc|Ltd\.|Ltd|LLC|GmbH|Corp\.|Corp|S\.A\.|PLC|Co\.|Co|Limited)'],
    [re.IGNORECASE]. *)
Definition company_suffix_pattern : regex :=
  RSeq (RSeq (RChar az_ic) (RPlus suffix_body))
       (RSeq (RPlus is_space) (alts (map lit_ic SUFFIXES))).


(** ** Data model ([models.py]) *)

Record Author := mkAuthor {
  name : str;
  affiliations : list str;
  email : option str;
  is_corresponding_author : bool;
  is_non_academic : bool;
  company_affiliations : list str
}.

(** Assignment to the two fields the classifier writes. *)
Definition set_classification (author : Author) (flag : bool) (companies : list str)
  : Author :=
  mkAuthor (name author) (affiliations author) (email author)
    (is_corresponding_author author) flag companies.

Record Date := mkDate { year : nat; month : nat; day : nat }.

(** Author objects live in a heap; a paper holds references to them, so an
    [Author] object shared by several papers is one heap cell. *)
Definition loc := nat.

Definition Heap := loc -> Author.

Definition heap_set (h : Heap) (l : loc) (a : Author) : Heap :=
  fun l' => if Nat.eqb l' l then a else h l'.

Record Paper := mkPaper {
  pubmed_id : str;
  title : str;
  publication_date : Date;
  authors : list loc
}.

(** [Paper.has_non_academic_authors]. *)
Definition has_non_academic_authors (h : Heap) (paper : Paper) : bool :=
  existsb (fun l => is_non_academic (h l)) (authors paper).

(** ** Python exceptions *)

Inductive PyExc := IndexError.

Inductive PyResult (A : Type) :=
| Ok (a : A)
| Raise (e : PyExc).
Arguments Ok {A} a.
Arguments Raise {A} e.

Definition py_bind {A B} (m : PyResult A) (f : A -> PyResult B) : PyResult B :=
  match m with Ok a => f a | Raise e => Raise e end.

Notation "x <- m ;; f" := (py_bind m (fun x => f))
  (at level 61, m at next level, right associativity).

(** [xs[i]]. *)
Definition py_index {A} (xs : list A) (i : nat) : PyResult A :=
  match nth_error xs i with Some x => Ok x | None => Raise IndexError end.

(** ** [filters.py] *)

Section Filters.

(** Iteration order of the set [COMMON_PHARMA_BIOTECH_COMPANIES]. *)
Variable company_order : list str.

(** [_extract_company_name(affiliation)]. *)
Definition extract_company_name (affiliation : str) : str :=
  match find (fun company => contains company affiliation) company_order with
  | Some company =>
      match search (company_pattern company) affiliation with
      | Some m => strip m
      | None => str_title company
      end
  | None =>
      match search company_suffix_pattern affiliation with
      | Some m => strip m
      | None => []
      end
  end.

(** One iteration of [for affiliation in author.affiliations]. *)
Definition classify_affiliation (author : Author) (affiliation : str) : Author :=
  let affiliation_lower := lower affiliation in
  if length affiliation_lower <? 3 then author
  else
    let company_name := extract_company_name affiliation_lower in
    if negb (is_empty company_name) then
      set_classification author true (company_affiliations author ++ [company_name])
    else
      let has_pharma_keyword := contains_any PHARMA_BIOTECH_KEYWORDS affiliation_lower in
      let has_academic_keyword := contains_any ACADEMIC_KEYWORDS affiliation_lower in
      if has_pharma_keyword && negb has_academic_keyword then
        set_classification author true (company_affiliations author ++ [affiliation])
      else author.

(** The email-domain check that follows the affiliation loop. *)
Definition check_email (author : Author) : PyResult Author :=
  match email author with
  | Some e =>
      if negb (is_empty e) then
        let email_lower := lower e in
        let has_non_academic_domain := contains_any NON_ACADEMIC_EMAIL_DOMAINS email_lower in
        let has_academic_domain := contains_any ACADEMIC_EMAIL_DOMAINS email_lower in
        if has_non_academic_domain && negb has_academic_domain
           && negb (is_non_academic author) then
          let author := set_classification author true (company_affiliations author) in
          if is_empty (company_affiliations author)
             && negb (is_empty (affiliations author)) then
            first <- py_index (affiliations author) 0 ;;
            Ok (set_classification author true [first])
          else Ok author
        else Ok author
      else Ok author
  | None => Ok author
  end.

(** Body of [for author in paper.authors]. *)
Definition classify_author (author : Author) : PyResult Author :=
  let author := set_classification author false [] in
  let author := fold_left classify_affiliation (affiliations author) author in
  check_email author.

Fixpoint classify_authors (h : Heap) (ls : list loc) : PyResult Heap :=
  match ls with
  | [] => Ok h
  | l :: ls' =>
      a <- classify_author (h l) ;;
      classify_authors (heap_set h l a) ls'
  end.

Fixpoint classify_papers (h : Heap) (papers : list Paper) : PyResult Heap :=
  match papers with
  | [] => Ok h
  | paper :: papers' =>
      h' <- classify_authors h (authors paper) ;;
      classify_papers h' papers'
  end.

(** [identify_non_academic_authors(papers)]: the returned list and the heap
    after the in-place updates. *)
Definition identify_non_academic_authors (papers : list Paper) (h : Heap)
  : PyResult (list Paper * Heap) :=
  h' <- classify_papers h papers ;;
  Ok (filter (has_non_academic_authors h') papers, h').

(** [filter_papers_with_company_affiliations(papers)]. *)
Definition filter_papers_with_company_affiliations (papers : list Paper) (h : Heap)
  : PyResult (list Paper * Heap) :=
  r <- identify_non_academic_authors papers h ;;
  let (identified_papers, h') := r in
  Ok (filter (has_non_academic_authors h') identified_papers, h').

End Filters.


(** ** Specification-side notions *)

(** The iteration order of a set visits exactly the set's elements. *)
Definition lexicon_order (order : list str) : Prop :=
  forall c, In c order <-> In c COMMON_PHARMA_BIOTECH_COMPANIES.

(** The value [classify_author] produces (it never raises, see
    [classify_author_ok]). *)
Definition classified (order : list str) (a : Author) : Author :=
  match classify_author order a with Ok a' => a' | Raise _ => a end.

(** Number of non-whitespace characters. *)
Definition count_ns (s : str) : nat :=
  length (filter (fun c => negb (is_space c)) s).

(** The regular language of a pattern. *)
Inductive matches : regex -> str -> Prop :=
| M_eps : matches REps []
| M_char p c : p c = true -> matches (RChar p) [c]
| M_seq r1 r2 v1 v2 : matches r1 v1 -> matches r2 v2 -> matches (RSeq r1 r2) (v1 ++ v2)
| M_alt_l r1 r2 v : matches r1 v -> matches (RAlt r1 r2) v
| M_alt_r r1 r2 v : matches r2 v -> matches (RAlt r1 r2) v
| M_opt_some r v : matches r v -> matches (ROpt r) v
| M_opt_none r : matches (ROpt r) []
| M_plus p c v : p c = true -> Forall (fun x => p x = true) v -> matches (RPlus p) (c :: v).

(** The author after the reset and the affiliation loop, before the email check. *)
Definition affiliation_pass (order : list str) (a : Author) : Author :=
  fold_left (classify_affiliation order) (affiliations a) (set_classification a false []).

(** No entry of the company lexicon occurs in [t]. *)
Definition lexicon_free (t : str) : bool :=
  forallb (fun c => negb (contains c t)) COMMON_PHARMA_BIOTECH_COMPANIES.

(** The email-domain condition of the spec: a non-academic fragment and no
    academic fragment in the lower-cased email. *)
Definition email_domain_signal (e : option str) : bool :=
  match e with
  | Some e =>
      contains_any NON_ACADEMIC_EMAIL_DOMAINS (lower e)
      && negb (contains_any ACADEMIC_EMAIL_DOMAINS (lower e))
  | None => false
  end.


(** Spec reading of the academic-only property. *)
Definition academic_only_stays_academic (order : list str) : Prop :=
  forall a,
    (forall s, In s (affiliations a) ->
       contains_any ACADEMIC_KEYWORDS (lower s) = true
       /\ contains_any PHARMA_BIOTECH_KEYWORDS (lower s) = false
       /\ lexicon_free (lower s) = true) ->
    email_domain_signal (email a) = false ->
    classify_author order a = Ok (set_classification a false []).

(** ** Concrete inputs *)

(** The academic author of the repository's unit test. *)
Definition academic_author : Author :=
  mkAuthor (lit "Academic Author")
    [lit "University of Science, Department of Medicine"]
    (Some (lit "author@university.edu")) false false [].

Definition academic_paper : Paper :=
  mkPaper (lit "1") (lit "Test Paper 1") (mkDate 2023 1 1) [0].

Definition academic_heap : Heap := fun _ => academic_author.

Definition colorado_author : Author :=
  mkAuthor (lit "Colorado Author")
    [lit "Department of Medicine, University of Colorado"]
    (Some (lit "author@colorado.edu")) false false [].

(** ** The remaining properties of [Paper] ([models.py]) *)

(** Python truthiness of an [Optional[str]]. *)
Definition truthy (o : option str) : bool :=
  match o with Some s => negb (is_empty s) | None => false end.

(** [Paper.non_academic_authors]: the author objects themselves, that is
    their heap references. *)
Definition non_academic_authors (h : Heap) (paper : Paper) : list loc :=
  filter (fun l => is_non_academic (h l)) (authors paper).

(** The loop of [Paper.corresponding_author_email]. *)
Fixpoint corresponding_email_loop (h : Heap) (ls : list loc) : option str :=
  match ls with
  | [] => None
  | l :: ls' =>
      let author := h l in
      if is_corresponding_author author && truthy (email author) then email author
      else corresponding_email_loop h ls'
  end.

(** [Paper.corresponding_author_email]. *)
Definition corresponding_author_email (h : Heap) (paper : Paper) : option str :=
  corresponding_email_loop h (authors paper).

(** ["; ".join(xs)] and friends. *)
Fixpoint join (sep : str) (xs : list str) : str :=
  match xs with
  | [] => []
  | [x] => x
  | x :: xs' => x ++ sep ++ join sep xs'
  end.

(** ["%0<w>d" % n], for [0 <= n < 10^w]. *)
Definition digit (n : nat) : ascii := ascii_of_nat (48 + n).

Fixpoint zero_pad (w n : nat) : str :=
  match w with
  | 0 => []
  | S w' => zero_pad w' (n / 10) ++ [digit (n mod 10)]
  end.

(** [date.isoformat()], that is ["%04d-%02d-%02d"]. *)
Definition isoformat (d : Date) : str :=
  zero_pad 4 (year d) ++ lit "-" ++ zero_pad 2 (month d) ++ lit "-" ++ zero_pad 2 (day d).

(** The [row] dict that [write_to_csv] ([cli.py]) writes for one paper. *)
Record CsvRow := mkCsvRow {
  row_pubmed_id : str;
  row_title : str;
  row_publication_date : str;
  row_non_academic_authors : str;
  row_company_affiliations : str;
  row_corresponding_author_email : str
}.

Section SetOrder.

(** [list(set(xs))]: the order in which CPython lists a set of strings
    depends on the string hashes, so it is a parameter. *)
Variable list_set : list str -> list str.

(** [Paper.company_affiliations]. *)
Definition paper_company_affiliations (h : Heap) (paper : Paper) : list str :=
  let affiliations :=
    fold_left (fun acc l => acc ++ company_affiliations (h l)) (non_academic_authors h paper) []
  in list_set affiliations.

(** The body of [for paper in papers] in [write_to_csv]. *)
Definition csv_row (h : Heap) (paper : Paper) : CsvRow :=
  mkCsvRow (pubmed_id paper) (title paper) (isoformat (publication_date paper))
    (join (lit "; ") (map (fun l => name (h l)) (non_academic_authors h paper)))
    (join (lit "; ") (paper_company_affiliations h paper))
    (match corresponding_author_email h paper with
     | Some e => if is_empty e then [] else e
     | None => []
     end).

(** The rows [write_to_csv] hands to [csv.DictWriter], in order. *)
Definition write_to_csv_rows (h : Heap) (papers : list Paper) : list CsvRow :=
  map (csv_row h) papers.

End SetOrder.

(** A set's listing order: every element once, nothing else. *)
Definition set_listing (list_set : list str -> list str) : Prop :=
  forall xs, NoDup (list_set xs) /\ forall x, In x (list_set xs) <-> In x xs.

(** One such order (first occurrences kept). *)
Definition dedup (xs : list str) : list str := nodup (list_eq_dec ascii_dec) xs.

(** ** [api.py] *)

(** [str.strip(chars)] and [str.strip()] with a character predicate. *)
Fixpoint lstrip_by (p : ascii -> bool) (s : str) : str :=
  match s with
  | [] => []
  | c :: s' => if p c then lstrip_by p s' else s
  end.

Definition strip_by (p : ascii -> bool) (s : str) : str :=
  rev (lstrip_by p (rev (lstrip_by p s))).

(** [==] on [str]. *)
Fixpoint str_eqb (a b : str) : bool :=
  match a, b with
  | [], [] => true
  | x :: a', y :: b' => Ascii.eqb x y && str_eqb a' b'
  | _, _ => false
  end.

(** [str.split()] with no argument: the maximal runs of non-whitespace;
    [word] is the current run, reversed. *)
Fixpoint split_go (s : str) (word : str) : list str :=
  match s with
  | [] => if is_empty word then [] else [rev word]
  | c :: s' =>
      if is_space c then
        (if is_empty word then split_go s' [] else rev word :: split_go s' [])
      else split_go s' (c :: word)
  end.

Definition py_split (s : str) : list str := split_go s [].

(** *** [int(s)] on a [str]

    CPython maps the non-ASCII whitespace to a space, then skips the ASCII
    whitespace [\t\n\v\f\r] and space around an optional sign and the
    digits, which may be separated by single underscores; more than 4300
    digits raise [ValueError] too. [None] is [ValueError]. *)

Definition int_space (c : ascii) : bool :=
  in_range 9 13 (code c) || (code c =? 32) || (code c =? 133) || (code c =? 160).

Definition is_digit (c : ascii) : bool := in_range 48 57 (code c).

Definition digit_value (c : ascii) : Z := Z.of_nat (code c - 48).

(** The digits of [body]: the value and the number of digits. *)
Fixpoint parse_digits (s : str) (acc : Z) (ndigits : nat) (after_digit : bool)
  : option (Z * nat) :=
  match s with
  | [] => if after_digit then Some (acc, ndigits) else None
  | c :: s' =>
      if is_digit c then parse_digits s' (acc * 10 + digit_value c)%Z (S ndigits) true
      else if (code c =? 95) && after_digit then parse_digits s' acc ndigits false
      else None
  end.

Definition INT_MAX_STR_DIGITS : nat := 4300.

Definition py_int (s : str) : option Z :=
  let t := strip_by int_space s in
  let '(sign, body) :=
    match t with
    | c :: t' =>
        if Ascii.eqb c "+"%char then (1%Z, t')
        else if Ascii.eqb c "-"%char then ((-1)%Z, t')
        else (1%Z, t)
    | [] => (1%Z, [])
    end in
  match parse_digits body 0 0 false with
  | Some (v, n) => if INT_MAX_STR_DIGITS <? n then None else Some (sign * v)%Z
  | None => None
  end.

(** *** [datetime.date(year, month, day)] *)

Section Dates.
Local Open Scope Z_scope.

(** The arguments are converted to C [int]s first ([OverflowError]), then
    range-checked ([ValueError]). *)
Definition c_int (z : Z) : bool := (-2147483648 <=? z) && (z <=? 2147483647).

Definition is_leap (y : Z) : bool :=
  ((y mod 4 =? 0) && negb (y mod 100 =? 0)) || (y mod 400 =? 0).

Definition days_in_month (y m : Z) : Z :=
  if m =? 2 then (if is_leap y then 29 else 28)
  else if (m =? 4) || (m =? 6) || (m =? 9) || (m =? 11) then 30
  else 31.

Inductive DateResult :=
| DateOk (d : Date)
| DateValueError
| DateOverflowError.

Definition py_date (y m d : Z) : DateResult :=
  if negb (c_int y && c_int m && c_int d) then DateOverflowError
  else if (1 <=? y) && (y <=? 9999) && (1 <=? m) && (m <=? 12)
          && (1 <=? d) && (d <=? days_in_month y m)
  then DateOk (mkDate (Z.to_nat y) (Z.to_nat m) (Z.to_nat d))
  else DateValueError.

End Dates.

(** A [datetime.date] value: one that [date(...)] accepts. *)
Definition valid_date (dt : Date) : bool :=
  match py_date (Z.of_nat (year dt)) (Z.of_nat (month dt)) (Z.of_nat (day dt)) with
  | DateOk _ => true
  | _ => false
  end.

(** *** [_extract_publication_date] *)

(** A [PubDate] element: the texts of its [Year], [Month] and [Day] children
    ([xpath("./Year/text()")] and so on). *)
Record PubDateElem := mkPubDateElem {
  year_text : list str;
  month_text : list str;
  day_text : list str
}.

Definition month_map : list (str * Z) :=
  [(lit "jan", 1%Z); (lit "feb", 2%Z); (lit "mar", 3%Z); (lit "apr", 4%Z);
   (lit "may", 5%Z); (lit "jun", 6%Z); (lit "jul", 7%Z); (lit "aug", 8%Z);
   (lit "sep", 9%Z); (lit "oct", 10%Z); (lit "nov", 11%Z); (lit "dec", 12%Z)].

(** [d.get(k, default)] on a dict given by its items. *)
Fixpoint dict_get {V} (d : list (str * V)) (k : str) (default : V) : V :=
  match d with
  | [] => default
  | (k', v) :: d' => if str_eqb k' k then v else dict_get d' k default
  end.

(** The month block: it never raises. *)
Definition parse_month (month_elem : list str) : Z :=
  match month_elem with
  | [] => 1%Z
  | t :: _ =>
      match py_int t with
      | Some m => m
      | None => dict_get month_map (firstn 3 (lower t)) 1%Z
      end
  end.

Section PubDate.

(** [date.today()]. *)
Variable today : Date.

(** [_extract_publication_date(article_element)], given the [PubDate]
    elements under the article ([xpath(".//PubDate")]). A [ValueError] of
    [int(...)] or of the fallback [date(year, 1, 1)], and an [OverflowError]
    of [date(...)], reach the outer handler. *)
Definition extract_publication_date (pub_date_elem : list PubDateElem) : Date :=
  match pub_date_elem with
  | [] => today
  | pd :: _ =>
      match (match year_text pd with [] => Some 1900%Z | t :: _ => py_int t end) with
      | None => today
      | Some year =>
          let month := parse_month (month_text pd) in
          match (match day_text pd with [] => Some 1%Z | t :: _ => py_int t end) with
          | None => today
          | Some day =>
              match py_date year month day with
              | DateOk d => d
              | DateValueError =>
                  match py_date year 1 1 with DateOk d => d | _ => today end
              | DateOverflowError => today
              end
          end
      end
  end.

End PubDate.

(** *** [_parse_author] *)

(** An [Author] element, through the XPath queries [_parse_author] runs on it. *)
Record AuthorElem := mkAuthorElem {
  last_name_text : list str;             (* ./LastName/text() *)
  fore_name_text : list str;             (* ./ForeName/text() *)
  collective_name_text : list str;       (* ./CollectiveName/text() *)
  affiliation_elem_text : list (option str);  (* .text of ./AffiliationInfo/Affiliation *)
  corresp_author_attr : list str         (* ./@CorrespAuthor *)
}.

Definition is_email_token (e : str) : bool := contains (lit "@") e && contains (lit ".") e.

Definition email_strip_char (c : ascii) : bool := existsb (Ascii.eqb c) (lit ".,;<>").

(** The loop that looks for an email address in the affiliations. *)
Fixpoint find_email (affiliations : list str) : option str :=
  match affiliations with
  | [] => None
  | affiliation :: rest =>
      match filter is_email_token (py_split affiliation) with
      | e :: _ => Some (strip_by email_strip_char e)
      | [] => find_email rest
      end
  end.

Definition parse_author (author_elem : AuthorElem) : option Author :=
  let name :=
    match last_name_text author_elem, fore_name_text author_elem with
    | l :: _, f :: _ => Some (f ++ lit " " ++ l)
    | l :: _, [] => Some l
    | [], _ =>
        match collective_name_text author_elem with
        | c :: _ => Some c
        | [] => None
        end
    end in
  match name with
  | None => None
  | Some name =>
      let affiliations :=
        flat_map (fun t => match t with
                           | Some a => if is_empty a then [] else [a]
                           | None => []
                           end) (affiliation_elem_text author_elem) in
      let email := find_email affiliations in
      let is_corresponding :=
        match corresp_author_attr author_elem with
        | v :: _ => str_eqb v (lit "Y")
        | [] => false
        end in
      Some (mkAuthor name affiliations email is_corresponding false [])
  end.

(** *** Requests and their outcomes *)

(** The exceptions that leave the functions of [api.py]. *)
Inductive ApiExc :=
| RequestException
| ValueError
| JSONDecodeError
| FilterExc (e : PyExc).

Inductive ApiResult (A : Type) :=
| Done (a : A)
| Fail (e : ApiExc).
Arguments Done {A} a.
Arguments Fail {A} e.

Definition api_bind {A B} (m : ApiResult A) (f : A -> ApiResult B) : ApiResult B :=
  match m with Done a => f a | Fail e => Fail e end.

Notation "'let!' x := m 'in' f" := (api_bind m (fun x => f))
  (at level 200, x name, m at level 100, f at level 200).




(** *** [search_pubmed] *)

(** The ["esearchresult"] object of an ESearch JSON reply ([None] for a
    missing key). *)
Record ESearchResult := mkESearchResult {
  count : option str;
  idlist : option (list str);
  webenv : option str;
  querykey : option str
}.

Definition RESULTS_PER_PAGE : Z := 100.

(** [range(start, stop, step)] for [step > 0]. *)
Fixpoint range_from (start step : Z) (n : nat) : list Z :=
  match n with
  | 0 => []
  | S n' => start :: range_from (start + step)%Z step n'
  end.

Definition py_range (start stop step : Z) : list Z :=
  range_from start step (Z.to_nat ((stop - start + step - 1) / step)).

Section Search.

(** [_make_request(PUBMED_SEARCH_URL, params).json()]: for the first query
    (given [retmax]) and for a page (given [retstart] and [retmax]); the
    reply is [None] when it has no ["esearchresult"]. *)
Variable esearch_first : Z -> ApiResult (option ESearchResult).
Variable esearch_page : Z -> Z -> ApiResult (option ESearchResult).

(** The pagination loop. *)
Fixpoint search_pages (starts : list Z) (remaining : Z) (pubmed_ids : list str)
  : ApiResult (list str) :=
  match starts with
  | [] => Done pubmed_ids
  | start :: starts' =>
      let batch_size := Z.min RESULTS_PER_PAGE remaining in
      let! batch_data := esearch_page start batch_size in
      match batch_data with
      | Some r =>
          match idlist r with
          | Some new_ids =>
              search_pages starts' (remaining - Z.of_nat (length new_ids))%Z
                (pubmed_ids ++ new_ids)
          | None => search_pages starts' remaining pubmed_ids
          end
      | None => search_pages starts' remaining pubmed_ids
      end
  end.

(** [search_pubmed(query, max_results)]. *)
Definition search_pubmed (max_results : Z) : ApiResult (list str) :=
  let! search_data := esearch_first (Z.min RESULTS_PER_PAGE max_results) in
  match search_data with
  | None => Done []
  | Some result =>
      let! total_count :=
        match count result with
        | None => Done 0%Z
        | Some c => match py_int c with Some n => Done n | None => Fail ValueError end
        end in
      let pubmed_ids := match idlist result with Some ids => ids | None => [] end in
      if truthy (webenv result) && truthy (querykey result)
         && (RESULTS_PER_PAGE <? total_count)%Z
         && (Z.of_nat (length pubmed_ids) <? max_results)%Z then
        let remaining := (Z.min total_count max_results - Z.of_nat (length pubmed_ids))%Z in
        search_pages
          (py_range RESULTS_PER_PAGE (Z.min total_count max_results) RESULTS_PER_PAGE)
          remaining pubmed_ids
      else Done pubmed_ids
  end.

End Search.

(** *** [fetch_papers_details] *)

Definition batch_size : nat := 100.

(** [pubmed_ids[i:i+batch_size] for i in range(0, len(pubmed_ids), batch_size)]. *)
Definition batches (pubmed_ids : list str) : list (list str) :=
  map (fun i => firstn batch_size (skipn i pubmed_ids))
    (map (fun k => k * batch_size)
       (seq 0 ((length pubmed_ids + batch_size - 1) / batch_size))).

Section Fetch.

Variables Response Article : Type.

(** [_make_request(PUBMED_FETCH_URL, {"id": ",".join(batch_ids), ...})]. *)
Variable fetch_request : list str -> ApiResult (option Response).
(** [etree.fromstring(response.content).xpath("//PubmedArticle")]; [None]
    when it raises. *)
Variable xml_articles : Response -> option (list Article).
(** [_parse_pubmed_article(article)]; [None] when it returns [None] or
    raises. *)
Variable parse_article : Article -> option Paper.

Fixpoint fetch_batches (bs : list (list str)) (papers : list Paper)
  : ApiResult (list Paper) :=
  match bs with
  | [] => Done papers
  | batch_ids :: bs' =>
      let! response := fetch_request batch_ids in
      let parsed :=
        match response with
        | Some r =>
            match xml_articles r with
            | Some articles =>
                flat_map (fun article => match parse_article article with
                                         | Some paper => [paper]
                                         | None => []
                                         end) articles
            | None => []
            end
        | None => []  (* [response.content] raises inside the [try] *)
        end in
      fetch_batches bs' (papers ++ parsed)
  end.

(** [fetch_papers_details(pubmed_ids)]. *)
Definition fetch_papers_details (pubmed_ids : list str) : ApiResult (list Paper) :=
  if is_empty pubmed_ids then Done [] else fetch_batches (batches pubmed_ids) [].

End Fetch.

(** ** [fetch_papers] ([cli.py]) *)

Definition of_py {A} (r : PyResult A) : ApiResult A :=
  match r with Ok a => Done a | Raise e => Fail (FilterExc e) end.

(** [fetch_papers(query, max_results)], on the heap of the author objects
    the parsed papers refer to. *)
Definition fetch_papers (company_order : list str)
    (esearch_first : Z -> ApiResult (option ESearchResult))
    (esearch_page : Z -> Z -> ApiResult (option ESearchResult))
    {Response Article : Type}
    (fetch_request : list str -> ApiResult (option Response))
    (xml_articles : Response -> option (list Article))
    (parse_article : Article -> option Paper)
    (max_results : Z) (h : Heap) : ApiResult (list Paper * Heap) :=
  let! pubmed_ids := search_pubmed esearch_first esearch_page max_results in
  if is_empty pubmed_ids then Done ([], h)
  else
    let! papers := fetch_papers_details Response Article fetch_request xml_articles
                     parse_article pubmed_ids in
    of_py (filter_papers_with_company_affiliations company_order papers h).


(** Concrete authors and papers for the properties below. *)
Definition pfizer_author : Author :=
  mkAuthor (lit "Jane Roe") [lit "Pfizer Inc., New York"]
    (Some (lit "jane.roe@pfizer.com")) true true [lit "pfizer inc"; lit "pfizer inc"].

Definition mixed_heap : Heap :=
  fun l => if Nat.eqb l 0 then academic_author else pfizer_author.

Definition mixed_paper : Paper :=
  mkPaper (lit "2") (lit "Test Paper 2") (mkDate 2023 2 1) [0; 1].

(** An author whose only affiliation string is too short for the loop. *)
Definition short_affiliation_author : Author :=
  mkAuthor (lit "Short Author") [lit "NY"] (Some (lit "short@acme.com")) false false [].

(** Author elements as PubMed sends them, and the heap of the parsed authors. *)
Definition pfizer_elem : AuthorElem :=
  mkAuthorElem [lit "Roe"] [lit "Jane"] []
    [Some (lit "Pfizer Inc., New York, NY <jane.roe@pfizer.com>."); None; Some []] [lit "Y"].

Definition academic_elem : AuthorElem :=
  mkAuthorElem [lit "Doe"] [lit "John"] []
    [Some (lit "Department of Medicine, University of Science")] [].

Definition parsed_heap : Heap :=
  fun l => match parse_author (if Nat.eqb l 0 then academic_elem else pfizer_elem) with
           | Some a => a
           | None => academic_author
           end.

Definition parsed_paper : Paper :=
  mkPaper (lit "3") (lit "Test Paper 3") (mkDate 2023 3 1) [0; 1].

(** ** Descriptions used by the statements *)


(** [p] was parsed from an article of the XML reply to one of the batches
    [bs]. *)
Definition parsed_from {Response Article : Type}
    (fetch_request : list str -> ApiResult (option Response))
    (xml_articles : Response -> option (list Article))
    (parse_article : Article -> option Paper)
    (bs : list (list str)) (p : Paper) : Prop :=
  exists b r arts art, In b bs /\ fetch_request b = Done (Some r) /\
    xml_articles r = Some arts /\ In art arts /\ parse_article art = Some p.

(** An ESearch server whose result set is [all], with count text [c] and
    history keys [w] and [q]: the first query and the pages it answers. *)
Definition esearch_first_from (all : list str) (c : str) (w q : option str)
    (retmax : Z) : ApiResult (option ESearchResult) :=
  Done (Some (mkESearchResult (Some c) (Some (firstn (Z.to_nat retmax) all)) w q)).

Definition esearch_page_from (all : list str) (c : str) (w q : option str)
    (retstart retmax : Z) : ApiResult (option ESearchResult) :=
  Done (Some (mkESearchResult (Some c)
    (Some (firstn (Z.to_nat retmax) (skipn (Z.to_nat retstart) all))) w q)).

(** Two hundred and fifty three-digit PubMed IDs. *)
Definition many_ids : list str := map (zero_pad 3) (seq 0 250).

(** ** Characters and strings *)

Lemma is_space_lower_char c : is_space (lower_char c) = is_space c.
Proof. destruct c as [[] [] [] [] [] [] [] []]; reflexivity. Qed.

Lemma ieq_is_space c x : ieq c x = true -> is_space x = is_space c.
Proof.
  unfold ieq; intro H; apply Ascii.eqb_eq in H.
  rewrite <- (is_space_lower_char x), <- (is_space_lower_char c), H; reflexivity.
Qed.

Lemma ieq_refl c : ieq c c = true.
Proof. unfold ieq; apply Ascii.eqb_refl. Qed.

Lemma count_ns_app s t : count_ns (s ++ t) = count_ns s + count_ns t.
Proof. unfold count_ns; rewrite filter_app, length_app; reflexivity. Qed.

Lemma count_ns_cons c s :
  count_ns (c :: s) = (if is_space c then 0 else 1) + count_ns s.
Proof. unfold count_ns; simpl; destruct (is_space c); reflexivity. Qed.

Lemma count_ns_le_length s : count_ns s <= length s.
Proof.
  induction s as [|c s IH]; [reflexivity|].
  rewrite count_ns_cons; simpl; destruct (is_space c); lia.
Qed.

Lemma count_ns_rev s : count_ns (rev s) = count_ns s.
Proof.
  induction s as [|c s IH]; [reflexivity|].
  simpl; rewrite count_ns_app, !count_ns_cons, IH; change (count_ns []) with 0; lia.
Qed.

Lemma count_ns_lstrip s : count_ns (lstrip s) = count_ns s.
Proof.
  induction s as [|c s IH]; [reflexivity|].
  simpl; destruct (is_space c) eqn:E; [|reflexivity].
  rewrite IH, count_ns_cons, E; reflexivity.
Qed.

Lemma count_ns_strip s : count_ns (strip s) = count_ns s.
Proof.
  unfold strip; rewrite count_ns_rev, count_ns_lstrip, count_ns_rev, count_ns_lstrip.
  reflexivity.
Qed.

Lemma count_ns_lower s : count_ns (lower s) = count_ns s.
Proof.
  induction s as [|c s IH]; [reflexivity|].
  simpl; rewrite !count_ns_cons, is_space_lower_char, IH; reflexivity.
Qed.

Lemma length_lower s : length (lower s) = length s.
Proof. apply length_map. Qed.

Lemma strip_nonempty s : 0 < count_ns s -> strip s <> [].
Proof. intros H E; rewrite <- count_ns_strip, E in H; change (count_ns []) with 0 in H; lia. Qed.

Lemma prefixb_app p s : prefixb p s = true -> exists b, s = p ++ b.
Proof.
  revert s; induction p as [|x p IH]; intros s H; [exists s; reflexivity|].
  destruct s as [|y s]; [discriminate|].
  simpl in H; apply andb_true_iff in H as [H1 H2].
  apply Ascii.eqb_eq in H1; subst y.
  destruct (IH s H2) as [b ->]; exists b; reflexivity.
Qed.

Lemma contains_app k t : contains k t = true -> exists a b, t = a ++ k ++ b.
Proof.
  induction t as [|c t IH]; intro H; simpl in H.
  - destruct k; [exists [], []; reflexivity | discriminate].
  - apply orb_true_iff in H as [H|H].
    + destruct (prefixb_app _ _ H) as [b E]; exists [], b; exact E.
    + destruct (IH H) as [a [b ->]]; exists (c :: a), b; reflexivity.
Qed.

Lemma contains_count k t : contains k t = true -> count_ns k <= count_ns t.
Proof.
  intro H; destruct (contains_app _ _ H) as [a [b ->]].
  rewrite !count_ns_app; lia.
Qed.

Lemma contains_length k t : contains k t = true -> length k <= length t.
Proof.
  intro H; destruct (contains_app _ _ H) as [a [b ->]].
  rewrite !length_app; lia.
Qed.

(** Every keyword of the lexicons has at least three non-space characters. *)
Lemma lexicon_count c : In c COMMON_PHARMA_BIOTECH_COMPANIES -> 3 <= count_ns c.
Proof.
  intro H; assert (A : forallb (fun k => 3 <=? count_ns k) COMMON_PHARMA_BIOTECH_COMPANIES = true)
    by (vm_compute; reflexivity).
  rewrite forallb_forall in A; apply Nat.leb_le, A, H.
Qed.

Lemma pharma_count k : In k PHARMA_BIOTECH_KEYWORDS -> 3 <= count_ns k.
Proof.
  intro H; assert (A : forallb (fun k => 3 <=? count_ns k) PHARMA_BIOTECH_KEYWORDS = true)
    by (vm_compute; reflexivity).
  rewrite forallb_forall in A; apply Nat.leb_le, A, H.
Qed.

Lemma suffix_count k : In k SUFFIXES -> 2 <= count_ns k.
Proof.
  intro H; assert (A : forallb (fun k => 2 <=? count_ns k) SUFFIXES = true)
    by (vm_compute; reflexivity).
  rewrite forallb_forall in A; apply Nat.leb_le, A, H.
Qed.

(** ** The backtracking matcher against the language of a pattern *)

Lemma star_class_sound p s k x :
  star_class p s k = Some x ->
  exists v rest, s = v ++ rest /\ Forall (fun c => p c = true) v /\ k rest = Some x.
Proof.
  induction s as [|c s IH]; simpl; intro H.
  - exists [], []; auto.
  - destruct (p c) eqn:P; [|exists [], (c :: s); auto].
    destruct (star_class p s k) as [o|] eqn:E; [|exists [], (c :: s); auto].
    injection H as <-.
    destruct (IH eq_refl) as [v [rest [-> [F K]]]].
    exists (c :: v), rest; auto.
Qed.

Lemma mtch_sound r :
  forall s k x, mtch r s k = Some x ->
  exists v rest, s = v ++ rest /\ matches r v /\ k rest = Some x.
Proof.
  induction r as [|p|r1 IH1 r2 IH2|r1 IH1 r2 IH2|r1 IH1|p];
    intros s k x H; simpl in H.
  - exists [], s; repeat split; auto; constructor.
  - destruct s as [|c s]; [discriminate|].
    destruct (p c) eqn:P; [|discriminate].
    exists [c], s; repeat split; auto; constructor; auto.
  - destruct (IH1 _ _ _ H) as [v1 [s1 [-> [M1 K1]]]].
    destruct (IH2 _ _ _ K1) as [v2 [rest [-> [M2 K2]]]].
    exists (v1 ++ v2), rest; rewrite app_assoc; repeat split; auto; constructor; auto.
  - destruct (mtch r1 s k) as [o|] eqn:E.
    + injection H as <-.
      destruct (IH1 _ _ _ E) as [v [rest [-> [M K]]]].
      exists v, rest; repeat split; auto; apply M_alt_l; auto.
    + destruct (IH2 _ _ _ H) as [v [rest [-> [M K]]]].
      exists v, rest; repeat split; auto; apply M_alt_r; auto.
  - destruct (mtch r1 s k) as [o|] eqn:E.
    + injection H as <-.
      destruct (IH1 _ _ _ E) as [v [rest [-> [M K]]]].
      exists v, rest; repeat split; auto; apply M_opt_some; auto.
    + exists [], s; repeat split; auto; apply M_opt_none.
  - destruct s as [|c s]; [discriminate|].
    destruct (p c) eqn:P; [|discriminate].
    destruct (star_class_sound _ _ _ _ H) as [v [rest [-> [F K]]]].
    exists (c :: v), rest; repeat split; auto; constructor; auto.
Qed.

Lemma star_class_complete p v rest k y :
  Forall (fun c => p c = true) v -> k rest = Some y ->
  exists x, star_class p (v ++ rest) k = Some x.
Proof.
  intros F K; induction F as [|c v Pc F IH]; simpl.
  - destruct rest as [|c rest]; simpl; [eauto|].
    destruct (p c); [destruct (star_class p rest k); eauto | eauto].
  - rewrite Pc; destruct IH as [x E]; rewrite E; eauto.
Qed.

Lemma mtch_complete r v :
  matches r v ->
  forall rest k y, k rest = Some y -> exists x, mtch r (v ++ rest) k = Some x.
Proof.
  induction 1 as [ | p c Pc | r1 r2 v1 v2 M1 IH1 M2 IH2 | r1 r2 v M IH
                 | r1 r2 v M IH | r v M IH | r | p c v Pc F ];
    intros rest k y K; simpl.
  - eauto.
  - rewrite Pc; eauto.
  - rewrite <- app_assoc.
    destruct (IH2 rest k y K) as [x2 E2].
    exact (IH1 (v2 ++ rest) (fun s' => mtch r2 s' k) x2 E2).
  - destruct (IH rest k y K) as [x E]; rewrite E; eauto.
  - destruct (mtch r1 (v ++ rest) k); [eauto | eapply IH; eauto].
  - destruct (IH rest k y K) as [x E]; rewrite E; eauto.
  - destruct (mtch r rest k); eauto.
  - rewrite Pc; eapply star_class_complete; eauto.
Qed.

Lemma search_unfold r s :
  search r s =
  match mtch r s (fun rest => Some rest) with
  | Some rest => Some (firstn (length s - length rest) s)
  | None => match s with [] => None | _ :: s' => search r s' end
  end.
Proof. destruct s; reflexivity. Qed.

Lemma firstn_prefix (v rest : str) : firstn (length (v ++ rest) - length rest) (v ++ rest) = v.
Proof.
  rewrite length_app, Nat.add_sub.
  induction v as [|c v IH]; simpl; [destruct rest; reflexivity | f_equal; exact IH].
Qed.

Lemma mtch_prefix r s o :
  mtch r s (fun rest => Some rest) = Some o ->
  exists v, s = v ++ o /\ matches r v /\ firstn (length s - length o) s = v.
Proof.
  intro E; destruct (mtch_sound _ _ _ _ E) as [v [rest [-> [M K]]]].
  injection K as ->; exists v; rewrite firstn_prefix; auto.
Qed.

Lemma search_hit r s o m :
  mtch r s (fun rest => Some rest) = Some o ->
  Some (firstn (length s - length o) s) = Some m ->
  exists pre rest, s = pre ++ m ++ rest /\ matches r m.
Proof.
  intros E H; destruct (mtch_prefix _ _ _ E) as [v [Ev [M Fv]]].
  rewrite Fv in H; injection H as <-; exists [], o; auto.
Qed.

Lemma search_sound r t m :
  search r t = Some m -> exists pre rest, t = pre ++ m ++ rest /\ matches r m.
Proof.
  induction t as [|c t IH]; intro H; rewrite search_unfold in H;
    destruct (mtch r _ (fun rest => Some rest)) as [o|] eqn:E.
  - exact (search_hit _ _ _ _ E H).
  - discriminate.
  - exact (search_hit _ _ _ _ E H).
  - destruct (IH H) as [pre [rest [-> M]]]; exists (c :: pre), rest; auto.
Qed.

Lemma search_complete r pre v rest :
  matches r v -> exists m, search r (pre ++ v ++ rest) = Some m.
Proof.
  intro M; induction pre as [|c pre IH]; rewrite search_unfold.
  - destruct (mtch_complete r v M rest (fun rest0 : str => Some rest0) rest eq_refl)
      as [x E].
    change ([] ++ v ++ rest) with (v ++ rest); rewrite E; eauto.
  - destruct (mtch r _ (fun rest => Some rest)); eauto.
Qed.

(** ** Languages of the two patterns of [_extract_company_name] *)

Lemma lit_ic_self l : matches (lit_ic l) l.
Proof.
  induction l as [|c l IH]; simpl; [constructor|].
  change (c :: l) with ([c] ++ l); constructor; [constructor; apply ieq_refl | exact IH].
Qed.

Lemma matches_seq_inv r1 r2 v :
  matches (RSeq r1 r2) v -> exists v1 v2, v = v1 ++ v2 /\ matches r1 v1 /\ matches r2 v2.
Proof. intro M; inversion M; subst; eauto. Qed.

Lemma matches_char_inv p v : matches (RChar p) v -> exists c, v = [c] /\ p c = true.
Proof. intro M; inversion M; subst; eauto. Qed.

Lemma lit_ic_count l v : matches (lit_ic l) v -> count_ns v = count_ns l.
Proof.
  revert v; induction l as [|c l IH]; intros v M; simpl in M.
  - inversion M; reflexivity.
  - destruct (matches_seq_inv _ _ _ M) as [v1 [v2 [-> [M1 M2]]]].
    destruct (matches_char_inv _ _ M1) as [x [-> Px]].
    simpl; rewrite !count_ns_cons, (IH v2 M2), (ieq_is_space _ _ Px); reflexivity.
Qed.

Lemma alts_inv rs v :
  rs <> [] -> matches (alts rs) v -> exists r, In r rs /\ matches r v.
Proof.
  induction rs as [|r rs IH]; intros NE M; [congruence|].
  destruct rs as [|r' rs].
  - exists r; simpl; auto.
  - simpl in M; inversion M; subst.
    + exists r; simpl; auto.
    + destruct (IH ltac:(discriminate) ltac:(assumption)) as [r0 [Hin M0]].
      exists r0; simpl in *; auto.
Qed.

Lemma az_ic_not_space c : az_ic c = true -> is_space c = false.
Proof. destruct c as [[] [] [] [] [] [] [] []]; simpl; intro H; (reflexivity || discriminate). Qed.

Lemma suffix_pattern_count v : matches company_suffix_pattern v -> 3 <= count_ns v.
Proof.
  unfold company_suffix_pattern; intro M.
  destruct (matches_seq_inv _ _ _ M) as [va [vb [-> [Ma Mb]]]].
  destruct (matches_seq_inv _ _ _ Ma) as [v1 [v2 [-> [M1 M2]]]].
  destruct (matches_char_inv _ _ M1) as [c [-> Pc]].
  destruct (matches_seq_inv _ _ _ Mb) as [v3 [v4 [-> [M3 M4]]]].
  destruct (alts_inv (map lit_ic SUFFIXES) v4 ltac:(simpl; discriminate) M4) as [r [Hin Mr]].
  destruct (proj1 (in_map_iff _ _ _) Hin) as [k [Ek Hk]]; subst r.
  pose proof (suffix_count k Hk); pose proof (lit_ic_count _ _ Mr).
  rewrite !count_ns_app, count_ns_cons, (az_ic_not_space c Pc); simpl; lia.
Qed.

Lemma company_pattern_count c v : matches (company_pattern c) v -> count_ns c <= count_ns v.
Proof.
  unfold company_pattern; intro M.
  destruct (matches_seq_inv _ _ _ M) as [va [vb [-> [Ma Mb]]]].
  destruct (matches_seq_inv _ _ _ Mb) as [v1 [v2 [-> [M1 M2]]]].
  rewrite !count_ns_app, (lit_ic_count _ _ M1); lia.
Qed.

Lemma company_pattern_self c : matches (company_pattern c) c.
Proof.
  assert (E : [] ++ (c ++ []) = c) by (simpl; apply app_nil_r).
  unfold company_pattern; rewrite <- E at 2.
  apply M_seq; [apply M_opt_none|].
  apply M_seq; [apply lit_ic_self | apply M_opt_none].
Qed.

(** ** The classifier on short and lexicon-free strings *)

Lemma lexicon_free_spec t :
  lexicon_free t = true -> forall c, In c COMMON_PHARMA_BIOTECH_COMPANIES -> contains c t = false.
Proof.
  unfold lexicon_free; rewrite forallb_forall; intros H c Hc.
  apply negb_true_iff, H, Hc.
Qed.

Lemma find_company_none order t :
  lexicon_order order -> lexicon_free t = true ->
  find (fun company => contains company t) order = None.
Proof.
  intros Ho Hf; destruct (find _ order) as [c|] eqn:F; [|reflexivity].
  apply find_some in F as [Hin Hc].
  rewrite (lexicon_free_spec t Hf c (proj1 (Ho c) Hin)) in Hc; discriminate.
Qed.

Lemma find_company_short order t :
  lexicon_order order -> count_ns t <= 2 ->
  find (fun company => contains company t) order = None.
Proof.
  intros Ho Ht; destruct (find _ order) as [c|] eqn:F; [|reflexivity].
  apply find_some in F as [Hin Hc].
  pose proof (lexicon_count c (proj1 (Ho c) Hin)); pose proof (contains_count _ _ Hc); lia.
Qed.

Lemma suffix_search_short t : count_ns t <= 2 -> search company_suffix_pattern t = None.
Proof.
  intro Ht; destruct (search _ t) as [m|] eqn:S; [|reflexivity].
  destruct (search_sound _ _ _ S) as [pre [rest [-> M]]].
  pose proof (suffix_pattern_count _ M); rewrite !count_ns_app in Ht; lia.
Qed.


Lemma pharma_short t : count_ns t <= 2 -> contains_any PHARMA_BIOTECH_KEYWORDS t = false.
Proof.
  intro Ht; destruct (contains_any _ t) eqn:E; [|reflexivity].
  apply existsb_exists in E as [k [Hk Hc]].
  pose proof (pharma_count k Hk); pose proof (contains_count _ _ Hc); lia.
Qed.

Lemma extract_lexicon_free order t :
  lexicon_order order -> lexicon_free t = true ->
  extract_company_name order t =
  match search company_suffix_pattern t with Some m => strip m | None => [] end.
Proof.
  intros Ho Hf; unfold extract_company_name; rewrite (find_company_none _ _ Ho Hf); reflexivity.
Qed.

Lemma classify_affiliation_short order a s :
  lexicon_order order -> count_ns s <= 2 -> classify_affiliation order a s = a.
Proof.
  intros Ho Hs; rewrite <- count_ns_lower in Hs.
  unfold classify_affiliation, extract_company_name.
  destruct (length (lower s) <? 3); [reflexivity|].
  rewrite (find_company_short _ _ Ho Hs), (suffix_search_short _ Hs), (pharma_short _ Hs).
  reflexivity.
Qed.

(** On strings without a lexicon hit the iteration order of the lexicon does
    not matter. *)
Lemma classify_affiliation_order_free order a s :
  lexicon_order order -> lexicon_free (lower s) = true ->
  classify_affiliation order a s = classify_affiliation [] a s.
Proof.
  intros Ho Hf; unfold classify_affiliation.
  rewrite (extract_lexicon_free _ _ Ho Hf).
  reflexivity.
Qed.

(** ** Authors: what the classifier writes *)

Lemma set_classification_twice a f cs f' cs' :
  set_classification (set_classification a f cs) f' cs' = set_classification a f' cs'.
Proof. reflexivity. Qed.

Lemma set_classification_self a :
  set_classification a (is_non_academic a) (company_affiliations a) = a.
Proof. destruct a; reflexivity. Qed.

Lemma classify_affiliation_shape order a s :
  exists f cs, classify_affiliation order a s = set_classification a f cs.
Proof.
  unfold classify_affiliation.
  destruct (length (lower s) <? 3); [eexists _, _; symmetry; apply set_classification_self|].
  destruct (negb (is_empty _)); [eauto|].
  destruct (_ && _); [eauto|].
  eexists _, _; symmetry; apply set_classification_self.
Qed.

Lemma fold_classify_shape order affs a :
  exists f cs, fold_left (classify_affiliation order) affs a = set_classification a f cs.
Proof.
  revert a; induction affs as [|s affs IH]; intro a; simpl.
  - eexists _, _; symmetry; apply set_classification_self.
  - destruct (classify_affiliation_shape order a s) as [f [cs ->]].
    destruct (IH (set_classification a f cs)) as [f' [cs' ->]].
    exists f', cs'; reflexivity.
Qed.

Lemma fold_classify_skip order affs1 x affs2 a :
  (forall b, classify_affiliation order b x = b) ->
  fold_left (classify_affiliation order) (affs1 ++ x :: affs2) a
  = fold_left (classify_affiliation order) (affs1 ++ affs2) a.
Proof. intro H; rewrite !fold_left_app; simpl; rewrite H; reflexivity. Qed.

(** [check_email], with the condition written as the spec words it. *)
Lemma check_email_eq b :
  check_email b =
  Ok (if negb (is_non_academic b) && email_domain_signal (email b) then
        set_classification b true
          (if is_empty (company_affiliations b) && negb (is_empty (affiliations b))
           then firstn 1 (affiliations b) else company_affiliations b)
      else b).
Proof.
  unfold check_email, email_domain_signal; cbv zeta.
  destruct (email b) as [e|]; [|destruct (is_non_academic b); reflexivity].
  destruct (is_empty e) eqn:Ee.
  - destruct e; [|discriminate]; destruct (is_non_academic b); reflexivity.
  - set (le := lower e).
    destruct (contains_any NON_ACADEMIC_EMAIL_DOMAINS le),
      (contains_any ACADEMIC_EMAIL_DOMAINS le), (is_non_academic b); simpl; try reflexivity.
    destruct (company_affiliations b) as [|x cs], (affiliations b) as [|f affs]; reflexivity.
Qed.

Lemma classify_author_eq order a :
  classify_author order a =
  let b := affiliation_pass order a in
  Ok (if negb (is_non_academic b) && email_domain_signal (email a) then
        set_classification b true
          (if is_empty (company_affiliations b) && negb (is_empty (affiliations a))
           then firstn 1 (affiliations a) else company_affiliations b)
      else b).
Proof.
  unfold classify_author, affiliation_pass; cbv zeta.
  change (affiliations (set_classification a false [])) with (affiliations a).
  rewrite check_email_eq.
  destruct (fold_classify_shape order (affiliations a) (set_classification a false []))
    as [f [cs E]]; rewrite E; reflexivity.
Qed.

Lemma affiliation_pass_shape order a :
  exists f cs, affiliation_pass order a = set_classification a f cs.
Proof.
  unfold affiliation_pass.
  destruct (fold_classify_shape order (affiliations a) (set_classification a false []))
    as [f [cs ->]]; exists f, cs; reflexivity.
Qed.

Lemma classify_author_shape order a :
  exists f cs, classify_author order a = Ok (set_classification a f cs).
Proof.
  rewrite classify_author_eq; cbv zeta.
  destruct (affiliation_pass_shape order a) as [f [cs ->]].
  destruct (_ && _); eexists _, _; reflexivity.
Qed.

Lemma classify_author_classified order a :
  classify_author order a = Ok (classified order a).
Proof.
  unfold classified; destruct (classify_author_shape order a) as [f [cs ->]]; reflexivity.
Qed.

(** [classify_author] reads only [affiliations] and [email]: the two fields it
    writes are reset first. *)
Lemma classify_author_reset order a f cs :
  classify_author order (set_classification a f cs) = classify_author order a.
Proof. reflexivity. Qed.

Lemma classified_idem order a : classified order (classified order a) = classified order a.
Proof.
  unfold classified at 2; destruct (classify_author_shape order a) as [f [cs E]].
  rewrite E; unfold classified; rewrite classify_author_reset, E; reflexivity.
Qed.

(** The invariant of the data model. *)
Lemma classify_affiliation_inv order a s :
  (company_affiliations a <> [] -> is_non_academic a = true) ->
  let b := classify_affiliation order a s in
  company_affiliations b <> [] -> is_non_academic b = true.
Proof.
  intro H; unfold classify_affiliation; cbv zeta.
  destruct (length (lower s) <? 3); [exact H|].
  destruct (negb (is_empty _)); [reflexivity|].
  destruct (_ && _); [reflexivity | exact H].
Qed.

Lemma fold_classify_inv order affs a :
  (company_affiliations a <> [] -> is_non_academic a = true) ->
  let b := fold_left (classify_affiliation order) affs a in
  company_affiliations b <> [] -> is_non_academic b = true.
Proof.
  revert a; induction affs as [|s affs IH]; intros a H; simpl; [exact H|].
  apply IH, classify_affiliation_inv, H.
Qed.

Lemma classified_inv order a :
  company_affiliations (classified order a) <> [] ->
  is_non_academic (classified order a) = true.
Proof.
  unfold classified; rewrite classify_author_eq; cbv zeta.
  pose proof (fold_classify_inv order (affiliations a) (set_classification a false [])
                ltac:(simpl; congruence)) as Hb.
  fold (affiliation_pass order a) in Hb.
  destruct (_ && _); [reflexivity | exact Hb].
Qed.

(** ** The heap after the classification pass *)

Lemma classify_authors_app order h ls1 ls2 :
  classify_authors order h (ls1 ++ ls2) =
  (h' <- classify_authors order h ls1 ;; classify_authors order h' ls2).
Proof.
  revert h; induction ls1 as [|l ls1 IH]; intro h; simpl; [reflexivity|].
  rewrite classify_author_classified; simpl; apply IH.
Qed.

Lemma classify_papers_authors order h papers :
  classify_papers order h papers = classify_authors order h (flat_map authors papers).
Proof.
  revert h; induction papers as [|p papers IH]; intro h; simpl; [reflexivity|].
  rewrite classify_authors_app; destruct (classify_authors order h (authors p)); simpl;
    [apply IH | reflexivity].
Qed.

(** Every visited cell holds the classified author, even when it is visited
    more than once (shared [Author] objects); the others are untouched. *)
Lemma classify_authors_spec order h ls :
  exists h', classify_authors order h ls = Ok h' /\
  forall l, h' l = if existsb (Nat.eqb l) ls then classified order (h l) else h l.
Proof.
  revert h; induction ls as [|l0 ls IH]; intro h; simpl.
  - exists h; auto.
  - rewrite classify_author_classified; simpl.
    destruct (IH (heap_set h l0 (classified order (h l0)))) as [h' [E Hh']].
    exists h'; split; [exact E|]; intro l; rewrite Hh'; unfold heap_set.
    destruct (Nat.eqb l l0) eqn:El; simpl.
    + apply Nat.eqb_eq in El; subst l.
      destruct (existsb (Nat.eqb l0) ls); [apply classified_idem | reflexivity].
    + reflexivity.
Qed.

Lemma has_non_academic_authors_ext h1 h2 paper :
  (forall l, h1 l = h2 l) ->
  has_non_academic_authors h1 paper = has_non_academic_authors h2 paper.
Proof.
  intro H; unfold has_non_academic_authors.
  induction (authors paper) as [|l ls IH]; simpl; [reflexivity|]; rewrite H, IH; reflexivity.
Qed.

Lemma filter_idem {A} (f : A -> bool) l : filter f (filter f l) = filter f l.
Proof.
  induction l as [|x l IH]; simpl; [reflexivity|].
  destruct (f x) eqn:E; simpl; [rewrite E, IH | rewrite IH]; reflexivity.
Qed.

Lemma visited_in (papers : list Paper) p l :
  In p papers -> In l (authors p) -> existsb (Nat.eqb l) (flat_map authors papers) = true.
Proof.
  intros Hp Hl; apply existsb_exists; exists l; split; [|apply Nat.eqb_refl].
  apply in_flat_map; eauto.
Qed.

(** ** Authors whose affiliations carry no lexicon hit *)

Lemma fold_classify_order_free order affs b :
  lexicon_order order ->
  (forall s, In s affs -> lexicon_free (lower s) = true) ->
  fold_left (classify_affiliation order) affs b = fold_left (classify_affiliation []) affs b.
Proof.
  intros Ho; revert b; induction affs as [|s affs IH]; intros b Hf; simpl; [reflexivity|].
  rewrite (classify_affiliation_order_free order b s Ho (Hf s (or_introl eq_refl))).
  apply IH; intros s' Hs'; apply Hf; right; exact Hs'.
Qed.

Lemma classify_author_order_free order a :
  lexicon_order order ->
  (forall s, In s (affiliations a) -> lexicon_free (lower s) = true) ->
  classify_author order a = classify_author [] a.
Proof.
  intros Ho Hf; unfold classify_author; cbv zeta.
  change (affiliations (set_classification a false [])) with (affiliations a).
  rewrite (fold_classify_order_free order _ _ Ho Hf); reflexivity.
Qed.

Lemma academic_author_classified order :
  lexicon_order order ->
  classify_author order academic_author = Ok (set_classification academic_author false []).
Proof.
  intro Ho; rewrite (classify_author_order_free order academic_author Ho).
  - vm_compute; reflexivity.
  - intros s [<-|[]]; vm_compute; reflexivity.
Qed.

Lemma colorado_author_classified order :
  lexicon_order order ->
  classify_author order colorado_author
  = Ok (set_classification colorado_author true [lit "university of co"]).
Proof.
  intro Ho; rewrite (classify_author_order_free order colorado_author Ho).
  - vm_compute; reflexivity.
  - intros s [<-|[]]; vm_compute; reflexivity.
Qed.

Lemma classify_affiliation_no_signal order b s :
  lexicon_order order -> lexicon_free (lower s) = true ->
  contains_any PHARMA_BIOTECH_KEYWORDS (lower s) = false ->
  search company_suffix_pattern (lower s) = None ->
  classify_affiliation order b s = b.
Proof.
  intros Ho Hf Hp Hs; unfold classify_affiliation; cbv zeta.
  rewrite (extract_lexicon_free _ _ Ho Hf), Hs, Hp.
  destruct (length (lower s) <? 3); reflexivity.
Qed.

Lemma fold_classify_no_signal order affs b :
  lexicon_order order ->
  (forall s, In s affs ->
     lexicon_free (lower s) = true /\ contains_any PHARMA_BIOTECH_KEYWORDS (lower s) = false
     /\ search company_suffix_pattern (lower s) = None) ->
  fold_left (classify_affiliation order) affs b = b.
Proof.
  intro Ho; revert b; induction affs as [|s affs IH]; intros b H; simpl; [reflexivity|].
  destruct (H s (or_introl eq_refl)) as [Hf [Hp Hs]].
  rewrite (classify_affiliation_no_signal order b s Ho Hf Hp Hs).
  apply IH; intros s' Hs'; apply H; right; exact Hs'.
Qed.

Lemma affiliation_pass_company order a :
  is_non_academic (affiliation_pass order a) = false ->
  company_affiliations (affiliation_pass order a) = [].
Proof.
  intro H; pose proof (fold_classify_inv order (affiliations a) (set_classification a false [])
                ltac:(simpl; congruence)) as Hb.
  fold (affiliation_pass order a) in Hb.
  destruct (company_affiliations (affiliation_pass order a)) eqn:E; [reflexivity|].
  rewrite Hb in H; [discriminate | rewrite E; discriminate].
Qed.

(** * Claims *)

(** C1 (code_bug): [identify_non_academic_authors] does not return all input
    papers: on one paper whose only author is academic (the academic author of
    the repository's unit test), the authors are classified but the returned
    list is empty. *)
Theorem identify_drops_academic_paper order :
  lexicon_order order ->
  exists h1,
    identify_non_academic_authors order [academic_paper] academic_heap = Ok ([], h1)
    /\ is_non_academic (h1 0) = false /\ company_affiliations (h1 0) = [].
Proof.
  intro Ho; unfold identify_non_academic_authors.
  cbn [classify_papers classify_authors authors academic_paper].
  change (academic_heap 0) with academic_author.
  rewrite (academic_author_classified order Ho); simpl.
  eexists; split; [reflexivity | split; reflexivity].
Qed.

Lemma identify_drops_academic_paper_witness :
  lexicon_order COMMON_PHARMA_BIOTECH_COMPANIES /\
  exists h1,
    identify_non_academic_authors COMMON_PHARMA_BIOTECH_COMPANIES [academic_paper]
      academic_heap = Ok ([], h1)
    /\ is_non_academic (h1 0) = false /\ company_affiliations (h1 0) = [].
Proof.
  split; [intro c; reflexivity|].
  apply (identify_drops_academic_paper COMMON_PHARMA_BIOTECH_COMPANIES).
  intro c; reflexivity.
Defined.




(** C3 (code_bug): the claim fails on an academic affiliation. For every
    iteration order of the lexicon, the author whose only affiliation,
    "Department of Medicine, University of Colorado", has academic keywords,
    no pharma keyword and no lexicon hit, and whose email
    "author@colorado.edu" gives no domain signal, is classified non-academic
    with company "university of co": the suffix alternative [Co] matches the
    start of "Colorado" (the pattern has no word boundary after the suffix),
    and the [[A-Z]] of the pattern accepts the lower-cased text because the
    search ignores case. *)
Theorem academic_affiliation_flagged order :
  lexicon_order order ->
  ~ academic_only_stays_academic order /\
  classify_author order colorado_author
  = Ok (set_classification colorado_author true [lit "university of co"]).
Proof.
  intro Ho.
  pose proof (colorado_author_classified order Ho) as Hc.
  split; [|exact Hc].
  intro H.
  assert (Hn : classify_author order colorado_author
               = Ok (set_classification colorado_author false [])).
  { apply H; [|vm_compute; reflexivity].
    intros s [<-|[]]; vm_compute; repeat split. }
  rewrite Hc in Hn; discriminate Hn.
Qed.

Lemma academic_affiliation_flagged_witness :
  lexicon_order COMMON_PHARMA_BIOTECH_COMPANIES /\
  ~ academic_only_stays_academic COMMON_PHARMA_BIOTECH_COMPANIES /\
  classify_author COMMON_PHARMA_BIOTECH_COMPANIES colorado_author
  = Ok (set_classification colorado_author true [lit "university of co"]).
Proof.
  split; [intro c; reflexivity|].
  apply (academic_affiliation_flagged COMMON_PHARMA_BIOTECH_COMPANIES).
  intro c; reflexivity.
Defined.

(** C4 (confirmed): an affiliation string shorter than 3 characters once
    stripped of whitespace yields no signal whatever its content: the author
    is left exactly as it was (no flag, nothing appended). The code tests the
    length of the unstripped string, but no lexicon entry, keyword or
    suffix-regex match fits in fewer than 3 non-space characters. *)
Theorem short_affiliation_no_signal order a s :
  lexicon_order order -> length (strip s) < 3 -> classify_affiliation order a s = a.
Proof.
  intros Ho Hs; apply (classify_affiliation_short order a s Ho).
  pose proof (count_ns_le_length (strip s)); rewrite count_ns_strip in H; lia.
Qed.

Lemma short_affiliation_no_signal_witness :
  length (strip (lit "  Co   ")) < 3 /\ length (lower (lit "  Co   ")) = 7 /\
  classify_affiliation COMMON_PHARMA_BIOTECH_COMPANIES academic_author (lit "  Co   ")
  = academic_author.
Proof.
  split; [vm_compute; lia|]; split; [reflexivity|].
  apply (short_affiliation_no_signal COMMON_PHARMA_BIOTECH_COMPANIES academic_author
           (lit "  Co   ") (fun c => iff_refl _)).
  vm_compute; lia.
Defined.

(** C5 (confirmed): after the affiliation loop (result [b]), the email check
    fires exactly when the lower-cased email has a non-academic domain
    fragment, no academic one, and [b] is not already non-academic; it then
    sets [is_non_academic] and, the company list being still empty, seeds it
    with the first affiliation string verbatim when there is one. An author
    already non-academic from affiliation text is left unchanged. *)
Theorem email_signal_precedence order a :
  let b := affiliation_pass order a in
  classify_author order a =
  Ok (if is_non_academic b then b
      else if email_domain_signal (email a)
      then set_classification b true (firstn 1 (affiliations a))
      else b).
Proof.
  cbv zeta; rewrite classify_author_eq; cbv zeta.
  destruct (is_non_academic (affiliation_pass order a)) eqn:F; simpl; [reflexivity|].
  rewrite (affiliation_pass_company order a F).
  destruct (email_domain_signal (email a)); [|reflexivity].
  destruct (affiliations a); reflexivity.
Qed.

(** C6 (confirmed): when the lower-cased affiliation contains an entry of the
    company lexicon, the first entry [company] met in the lexicon's iteration
    order is used; the widened pattern [(\w+\s+)?company(\s+\w+)?] always
    matches, the company name is the stripped match (the title-cased entry
    otherwise), it is non-empty, and the string is classified non-academic
    with that name appended. *)
Theorem known_company_widened order a s c :
  lexicon_order order ->
  In c COMMON_PHARMA_BIOTECH_COMPANIES -> contains c (lower s) = true ->
  exists company m,
    find (fun k => contains k (lower s)) order = Some company
    /\ In company COMMON_PHARMA_BIOTECH_COMPANIES
    /\ contains company (lower s) = true
    /\ search (company_pattern company) (lower s) = Some m
    /\ extract_company_name order (lower s)
       = match search (company_pattern company) (lower s) with
         | Some m' => strip m'
         | None => str_title company
         end
    /\ strip m <> []
    /\ classify_affiliation order a s
       = set_classification a true (company_affiliations a ++ [strip m]).
Proof.
  intros Ho Hc Hin.
  destruct (find (fun k => contains k (lower s)) order) as [company|] eqn:F.
  2:{ exfalso; pose proof (find_none _ _ F c (proj2 (Ho c) Hc)) as N; simpl in N; congruence. }
  destruct (find_some _ _ F) as [Hco Hcc].
  pose proof (proj1 (Ho company) Hco) as Hlex.
  destruct (contains_app _ _ Hcc) as [pre [post Et]].
  destruct (search_complete (company_pattern company) pre company post
              (company_pattern_self company)) as [m Sm].
  rewrite <- Et in Sm.
  destruct (search_sound _ _ _ Sm) as [pre' [rest' [_ Mm]]].
  pose proof (company_pattern_count _ _ Mm) as Cm.
  pose proof (lexicon_count _ Hlex) as Cc.
  assert (NE : strip m <> []) by (apply strip_nonempty; lia).
  exists company, m; repeat split; auto.
  - unfold extract_company_name; rewrite F; reflexivity.
  - unfold classify_affiliation; cbv zeta.
    assert (L : (length (lower s) <? 3) = false).
    { apply Nat.ltb_ge; pose proof (contains_length _ _ Hcc);
      pose proof (count_ns_le_length company); lia. }
    rewrite L; unfold extract_company_name; rewrite F, Sm.
    destruct (strip m) eqn:E; [congruence | reflexivity].
Qed.

Lemma known_company_widened_witness :
  exists company m,
    find (fun k => contains k (lower (lit "Pfizer Inc., Research Division")))
      COMMON_PHARMA_BIOTECH_COMPANIES = Some company
    /\ In company COMMON_PHARMA_BIOTECH_COMPANIES
    /\ contains company (lower (lit "Pfizer Inc., Research Division")) = true
    /\ search (company_pattern company) (lower (lit "Pfizer Inc., Research Division"))
       = Some m
    /\ extract_company_name COMMON_PHARMA_BIOTECH_COMPANIES
         (lower (lit "Pfizer Inc., Research Division"))
       = match search (company_pattern company)
                 (lower (lit "Pfizer Inc., Research Division")) with
         | Some m' => strip m'
         | None => str_title company
         end
    /\ strip m <> []
    /\ classify_affiliation COMMON_PHARMA_BIOTECH_COMPANIES academic_author
         (lit "Pfizer Inc., Research Division")
       = set_classification academic_author true
           (company_affiliations academic_author ++ [strip m]).
Proof.
  apply (known_company_widened COMMON_PHARMA_BIOTECH_COMPANIES academic_author
           (lit "Pfizer Inc., Research Division") (lit "pfizer") (fun c => iff_refl _)).
  - simpl; left; reflexivity.
  - vm_compute; reflexivity.
Defined.

(** C7 (confirmed): running [identify_non_academic_authors] a second time on
    the same paper list, over the heap the first run left, returns the same
    papers and leaves every [Author] object exactly as the first run did. *)
Theorem identify_idempotent order papers h :
  exists r h1 h2,
    identify_non_academic_authors order papers h = Ok (r, h1)
    /\ identify_non_academic_authors order papers h1 = Ok (r, h2)
    /\ forall l, h2 l = h1 l.
Proof.
  unfold identify_non_academic_authors.
  destruct (classify_authors_spec order h (flat_map authors papers)) as [h1 [E1 H1]].
  destruct (classify_authors_spec order h1 (flat_map authors papers)) as [h2 [E2 H2]].
  assert (Same : forall l, h2 l = h1 l).
  { intro l; rewrite H2, H1.
    destruct (existsb (Nat.eqb l) (flat_map authors papers)); [apply classified_idem | reflexivity]. }
  exists (filter (has_non_academic_authors h1) papers), h1, h2.
  rewrite !classify_papers_authors, E1, E2; simpl; split; [reflexivity|]; split; [|exact Same].
  do 2 f_equal; apply filter_ext; intro p; apply has_non_academic_authors_ext, Same.
Qed.

Lemma identify_idempotent_witness :
  exists r h1 h2,
    identify_non_academic_authors COMMON_PHARMA_BIOTECH_COMPANIES
      [academic_paper; academic_paper] academic_heap = Ok (r, h1)
    /\ identify_non_academic_authors COMMON_PHARMA_BIOTECH_COMPANIES
         [academic_paper; academic_paper] h1 = Ok (r, h2)
    /\ forall l, h2 l = h1 l.
Proof.
  exact (identify_idempotent COMMON_PHARMA_BIOTECH_COMPANIES
           [academic_paper; academic_paper] academic_heap).
Defined.

(** C8 (confirmed): after the classification pass every author of every
    input paper satisfies: a non-empty [company_affiliations] implies
    [is_non_academic = true]. *)
Theorem company_implies_non_academic order papers h :
  exists r h1,
    identify_non_academic_authors order papers h = Ok (r, h1)
    /\ forall p l, In p papers -> In l (authors p) ->
       company_affiliations (h1 l) <> [] -> is_non_academic (h1 l) = true.
Proof.
  unfold identify_non_academic_authors; rewrite classify_papers_authors.
  destruct (classify_authors_spec order h (flat_map authors papers)) as [h1 [E1 H1]].
  rewrite E1; simpl; eexists _, h1; split; [reflexivity|].
  intros p l Hp Hl; rewrite H1, (visited_in papers p l Hp Hl); apply classified_inv.
Qed.

(** The converse fails: the email path flags an author without affiliation
    strings and leaves the company list empty. *)
Lemma company_implies_non_academic_witness :
  (exists r h1,
    identify_non_academic_authors COMMON_PHARMA_BIOTECH_COMPANIES [academic_paper]
      (fun _ => mkAuthor (lit "E") [] (Some (lit "e@x.com")) false false []) = Ok (r, h1)
    /\ forall p l, In p [academic_paper] -> In l (authors p) ->
       company_affiliations (h1 l) <> [] -> is_non_academic (h1 l) = true)
  /\ classify_author COMMON_PHARMA_BIOTECH_COMPANIES
       (mkAuthor (lit "E") [] (Some (lit "e@x.com")) false false [])
     = Ok (mkAuthor (lit "E") [] (Some (lit "e@x.com")) false true []).
Proof.
  split; [|vm_compute; reflexivity].
  exact (company_implies_non_academic COMMON_PHARMA_BIOTECH_COMPANIES [academic_paper]
           (fun _ => mkAuthor (lit "E") [] (Some (lit "e@x.com")) false false [])).
Defined.

(** C9 (confirmed): classification never raises: both entry points return
    normally on every paper list and heap (the only operation that could
    raise, [author.affiliations[0]], is guarded); an empty affiliation string
    contributes nothing; and an affiliation string that gives no signal can be
    dropped from the loop without changing what the other strings give. *)
Theorem classification_never_raises order papers h :
  (exists r, identify_non_academic_authors order papers h = Ok r)
  /\ (exists r, filter_papers_with_company_affiliations order papers h = Ok r)
  /\ (forall a, classify_affiliation order a [] = a)
  /\ (forall a affs1 x affs2,
        (forall b, classify_affiliation order b x = b) ->
        fold_left (classify_affiliation order) (affs1 ++ x :: affs2) a
        = fold_left (classify_affiliation order) (affs1 ++ affs2) a).
Proof.
  destruct (classify_authors_spec order h (flat_map authors papers)) as [h1 [E1 _]].
  assert (I : identify_non_academic_authors order papers h
              = Ok (filter (has_non_academic_authors h1) papers, h1)).
  { unfold identify_non_academic_authors; rewrite classify_papers_authors, E1; reflexivity. }
  split; [eauto|]; split.
  - unfold filter_papers_with_company_affiliations; rewrite I; simpl; eauto.
  - split; [intro a; reflexivity|].
    intros a affs1 x affs2 H; apply fold_classify_skip, H.
Qed.

Lemma classification_never_raises_witness :
  fold_left (classify_affiliation COMMON_PHARMA_BIOTECH_COMPANIES)
    ([lit "Pfizer Inc."] ++ [] :: [lit "GeneTech Biotech Company"]) academic_author
  = fold_left (classify_affiliation COMMON_PHARMA_BIOTECH_COMPANIES)
      ([lit "Pfizer Inc."] ++ [lit "GeneTech Biotech Company"]) academic_author.
Proof.
  destruct (classification_never_raises COMMON_PHARMA_BIOTECH_COMPANIES [] academic_heap)
    as [_ [_ [Empty Skip]]].
  apply Skip; intro b; apply Empty.
Defined.

(** C10 (confirmed): the two entry points are extensionally equal: the
    second filtering pass of [filter_papers_with_company_affiliations]
    removes nothing, because [identify_non_academic_authors] has already
    filtered with the same predicate on the same heap. *)
Theorem filter_equals_identify order papers h :
  filter_papers_with_company_affiliations order papers h
  = identify_non_academic_authors order papers h.
Proof.
  unfold filter_papers_with_company_affiliations.
  destruct (identify_non_academic_authors order papers h) as [[r h1]|e] eqn:E;
    simpl; [|reflexivity].
  unfold identify_non_academic_authors in E.
  destruct (classify_papers order h papers) as [h'|e]; simpl in E; [|discriminate].
  injection E as <- <-; rewrite filter_idem; reflexivity.
Qed.

(** * Further properties of the code *)

(** ** Helpers *)

Lemma classified_fields order a :
  name (classified order a) = name a /\ affiliations (classified order a) = affiliations a
  /\ email (classified order a) = email a
  /\ is_corresponding_author (classified order a) = is_corresponding_author a.
Proof.
  pose proof (classify_author_classified order a) as E.
  destruct (classify_author_shape order a) as [f [cs E']].
  rewrite E' in E; injection E as E; rewrite <- E; repeat split.
Qed.

Lemma identify_heap order papers h :
  exists h1,
    identify_non_academic_authors order papers h
    = Ok (filter (has_non_academic_authors h1) papers, h1)
    /\ forall l, h1 l = if existsb (Nat.eqb l) (flat_map authors papers)
                        then classified order (h l) else h l.
Proof.
  unfold identify_non_academic_authors; rewrite classify_papers_authors.
  destruct (classify_authors_spec order h (flat_map authors papers)) as [h1 [E1 H1]].
  rewrite E1; exists h1; auto.
Qed.

Lemma corresponding_email_loop_spec h ls :
  match corresponding_email_loop h ls with
  | Some e =>
      e <> [] /\ exists pre l post, ls = pre ++ l :: post
        /\ is_corresponding_author (h l) = true /\ email (h l) = Some e
        /\ forall l', In l' pre -> is_corresponding_author (h l') && truthy (email (h l')) = false
  | None => forall l, In l ls -> is_corresponding_author (h l) && truthy (email (h l)) = false
  end.
Proof.
  induction ls as [|l ls IH]; simpl; [intros l []|].
  destruct (is_corresponding_author (h l) && truthy (email (h l))) eqn:C.
  - apply andb_true_iff in C as [C1 C2].
    destruct (email (h l)) as [e|] eqn:Ee; [|discriminate].
    split; [destruct e; [discriminate | congruence]|].
    exists [], l, ls; repeat split; auto; intros _ [].
  - destruct (corresponding_email_loop h ls) as [e|].
    + destruct IH as [Ne [pre [l' [post [-> [R1 [R2 R3]]]]]]]; split; [exact Ne|].
      exists (l :: pre), l', post; repeat split; auto.
      intros l0 [<-|H]; auto.
    + intros l0 [<-|H]; auto.
Qed.

Lemma fold_append_flat {A B} (f : A -> list B) ls acc :
  fold_left (fun acc l => acc ++ f l) ls acc = acc ++ flat_map f ls.
Proof.
  revert acc; induction ls as [|l ls IH]; intro acc; simpl; [rewrite app_nil_r; reflexivity|].
  rewrite IH, app_assoc; reflexivity.
Qed.

Lemma dedup_listing : set_listing dedup.
Proof. intro xs; split; [apply NoDup_nodup | intro x; apply nodup_In]. Qed.

Lemma classify_affiliation_pass_inv order a s :
  is_non_academic a = negb (is_empty (company_affiliations a)) ->
  Forall (fun c => c <> []) (company_affiliations a) ->
  let b := classify_affiliation order a s in
  is_non_academic b = negb (is_empty (company_affiliations b))
  /\ Forall (fun c => c <> []) (company_affiliations b)
  /\ length (company_affiliations b) <= S (length (company_affiliations a)).
Proof.
  intros H1 H2; unfold classify_affiliation; cbv zeta.
  destruct (length (lower s) <? 3) eqn:L; [repeat split; auto|].
  destruct (is_empty (extract_company_name order (lower s))) eqn:E; simpl.
  - destruct (_ && _); simpl; [|repeat split; auto].
    split; [destruct (company_affiliations a); reflexivity|].
    split; [apply Forall_app; split; [exact H2|] | rewrite length_app; simpl; lia].
    constructor; [|constructor]; intro Hs; subst s; discriminate.
  - split; [destruct (company_affiliations a); reflexivity|].
    split; [apply Forall_app; split; [exact H2|] | rewrite length_app; simpl; lia].
    constructor; [|constructor].
    destruct (extract_company_name order (lower s)); discriminate.
Qed.

Lemma fold_classify_pass_inv order affs a :
  is_non_academic a = negb (is_empty (company_affiliations a)) ->
  Forall (fun c => c <> []) (company_affiliations a) ->
  let b := fold_left (classify_affiliation order) affs a in
  is_non_academic b = negb (is_empty (company_affiliations b))
  /\ Forall (fun c => c <> []) (company_affiliations b)
  /\ length (company_affiliations b) <= length (company_affiliations a) + length affs.
Proof.
  revert a; induction affs as [|s affs IH]; intros a H1 H2; simpl; [repeat split; auto; lia|].
  destruct (classify_affiliation_pass_inv order a s H1 H2) as [G1 [G2 G3]].
  destruct (IH _ G1 G2) as [K1 [K2 K3]]; repeat split; auto; lia.
Qed.

Lemma prefixb_self k b : prefixb k (k ++ b) = true.
Proof. induction k as [|c k IH]; simpl; [reflexivity | rewrite Ascii.eqb_refl, IH; reflexivity]. Qed.

Lemma contains_prefix k hay : prefixb k hay = true -> contains k hay = true.
Proof. intro H; destruct hay; simpl; rewrite H; reflexivity. Qed.

Lemma contains_intro k a b : contains k (a ++ k ++ b) = true.
Proof.
  induction a as [|c a IH]; [change ([] ++ k ++ b) with (k ++ b); apply contains_prefix, prefixb_self|].
  simpl; rewrite IH, orb_true_r; reflexivity.
Qed.

Lemma lstrip_by_space s : lstrip s = lstrip_by is_space s.
Proof. induction s as [|c s IH]; simpl; [reflexivity | rewrite IH; reflexivity]. Qed.

Lemma strip_by_space s : strip s = strip_by is_space s.
Proof. unfold strip, strip_by; rewrite !lstrip_by_space; reflexivity. Qed.

Lemma lstrip_by_suffix p s : exists a, s = a ++ lstrip_by p s.
Proof.
  induction s as [|c s IH]; simpl; [exists []; reflexivity|].
  destruct (p c); [destruct IH as [a E]; exists (c :: a); simpl; f_equal; exact E|].
  exists []; reflexivity.
Qed.

Lemma strip_by_sub p s : exists a b, s = a ++ strip_by p s ++ b.
Proof.
  destruct (lstrip_by_suffix p s) as [a Ea].
  destruct (lstrip_by_suffix p (rev (lstrip_by p s))) as [a' Ea'].
  exists a, (rev a'); unfold strip_by.
  rewrite Ea at 1; f_equal.
  rewrite <- rev_app_distr, <- Ea', rev_involutive; reflexivity.
Qed.

Lemma search_strip_contains r t m :
  search r t = Some m -> contains (strip m) t = true.
Proof.
  intro S; destruct (search_sound _ _ _ S) as [pre [rest [-> _]]].
  destruct (strip_by_sub is_space m) as [x [y Em]]; rewrite <- strip_by_space in Em.
  revert Em; generalize (strip m) as sm; intros sm Em; subst m.
  replace (pre ++ (x ++ sm ++ y) ++ rest) with ((pre ++ x) ++ sm ++ (y ++ rest))
    by (rewrite <- !app_assoc; reflexivity).
  apply contains_intro.
Qed.

(** ** [Paper] properties *)


(** X2: [Paper.corresponding_author_email] is the (non-empty) email of the
    first author that is marked corresponding and has a non-empty email;
    it is [None] exactly when there is no such author. *)
Theorem corresponding_author_email_spec h paper :
  match corresponding_author_email h paper with
  | Some e =>
      e <> [] /\ exists pre l post, authors paper = pre ++ l :: post
        /\ is_corresponding_author (h l) = true /\ email (h l) = Some e
        /\ forall l', In l' pre -> is_corresponding_author (h l') && truthy (email (h l')) = false
  | None => forall l, In l (authors paper) ->
              is_corresponding_author (h l) && truthy (email (h l)) = false
  end.
Proof. apply corresponding_email_loop_spec. Qed.

(** X3: for any listing order of a set, [Paper.company_affiliations] lists
    each company of the paper's non-academic authors once, and nothing
    else. *)
Theorem paper_company_affiliations_spec list_set h paper :
  set_listing list_set ->
  NoDup (paper_company_affiliations list_set h paper)
  /\ forall c, In c (paper_company_affiliations list_set h paper) <->
       exists l, In l (authors paper) /\ is_non_academic (h l) = true
                 /\ In c (company_affiliations (h l)).
Proof.
  intro Hs; unfold paper_company_affiliations; cbv zeta; rewrite fold_append_flat.
  destruct (Hs ([] ++ flat_map (fun l => company_affiliations (h l))
                        (non_academic_authors h paper))) as [N M].
  split; [exact N|]; intro c; rewrite M; simpl; rewrite in_flat_map; split.
  - intros [l [Hl Hc]]; apply filter_In in Hl as [Hl Hn]; eauto.
  - intros [l [Hl [Hn Hc]]]; exists l; split; [apply filter_In; auto | exact Hc].
Qed.

Lemma paper_company_affiliations_spec_witness :
  NoDup (paper_company_affiliations dedup mixed_heap mixed_paper)
  /\ forall c, In c (paper_company_affiliations dedup mixed_heap mixed_paper) <->
       exists l, In l (authors mixed_paper) /\ is_non_academic (mixed_heap l) = true
                 /\ In c (company_affiliations (mixed_heap l)).
Proof. exact (paper_company_affiliations_spec dedup mixed_heap mixed_paper dedup_listing). Defined.

(** ** What the classification pass never does *)

(** X4: [identify_non_academic_authors] never changes an author's name,
    affiliations, email or corresponding flag; so the
    [corresponding_author_email] of every paper is the same before and after. *)
Theorem identify_keeps_author_data order papers h :
  exists r h1,
    identify_non_academic_authors order papers h = Ok (r, h1)
    /\ (forall l, name (h1 l) = name (h l) /\ affiliations (h1 l) = affiliations (h l)
          /\ email (h1 l) = email (h l)
          /\ is_corresponding_author (h1 l) = is_corresponding_author (h l))
    /\ forall p, corresponding_author_email h1 p = corresponding_author_email h p.
Proof.
  destruct (identify_heap order papers h) as [h1 [E H1]].
  exists (filter (has_non_academic_authors h1) papers), h1; split; [exact E|].
  assert (F : forall l, name (h1 l) = name (h l) /\ affiliations (h1 l) = affiliations (h l)
                /\ email (h1 l) = email (h l)
                /\ is_corresponding_author (h1 l) = is_corresponding_author (h l)).
  { intro l; rewrite H1; destruct (existsb _ _); [apply classified_fields | repeat split]. }
  split; [exact F|].
  intro p; unfold corresponding_author_email.
  induction (authors p) as [|l ls IH]; simpl; [reflexivity|].
  destruct (F l) as [_ [_ [Ee Ec]]]; rewrite Ee, Ec, IH; reflexivity.
Qed.

(** X5: an author object that none of the papers refers to is left as it
    was. *)
Theorem identify_untouched_cells order papers h :
  exists r h1,
    identify_non_academic_authors order papers h = Ok (r, h1)
    /\ forall l, (forall p, In p papers -> ~ In l (authors p)) -> h1 l = h l.
Proof.
  destruct (identify_heap order papers h) as [h1 [E H1]].
  exists (filter (has_non_academic_authors h1) papers), h1; split; [exact E|].
  intros l Hl; rewrite H1; destruct (existsb (Nat.eqb l) _) eqn:X; [|reflexivity].
  apply existsb_exists in X as [l' [Hin Heq]]; apply Nat.eqb_eq in Heq; subst l'.
  apply in_flat_map in Hin as [p [Hp Hlp]]; destruct (Hl p Hp Hlp).
Qed.

(** X6: a paper is in the result of [identify_non_academic_authors] exactly
    when it is one of the input papers and one of its authors, classified
    from its state before the call, is non-academic; an author shared by
    several papers gives the same verdict in each. *)
Theorem identify_output_members order papers h :
  exists r h1,
    identify_non_academic_authors order papers h = Ok (r, h1)
    /\ forall p, In p r <->
         In p papers /\ exists l, In l (authors p)
                                  /\ is_non_academic (classified order (h l)) = true.
Proof.
  destruct (identify_heap order papers h) as [h1 [E H1]].
  exists (filter (has_non_academic_authors h1) papers), h1; split; [exact E|].
  intro p; rewrite filter_In; unfold has_non_academic_authors; rewrite existsb_exists.
  split; intros [Hp [l [Hl Hn]]]; split; auto; exists l; split; auto;
    rewrite H1, (visited_in papers p l Hp Hl) in *; exact Hn.
Qed.

(** ** The affiliation loop and [_extract_company_name] *)

(** X7: after the reset and the affiliation loop, an author is flagged
    exactly when its company list is non-empty, every recorded company is a
    non-empty string, and the loop records at most one company per
    affiliation string. *)
Theorem affiliation_loop_records order a :
  let b := affiliation_pass order a in
  is_non_academic b = negb (is_empty (company_affiliations b))
  /\ Forall (fun c => c <> []) (company_affiliations b)
  /\ length (company_affiliations b) <= length (affiliations a).
Proof.
  apply (fold_classify_pass_inv order (affiliations a) (set_classification a false []));
    [reflexivity | constructor].
Qed.

(** X8: the company name [_extract_company_name] returns always occurs in
    the affiliation it was given (the empty string trivially): the
    title-cased lexicon entry is never returned, because the widened
    pattern always matches where the entry occurs. *)
Theorem extract_company_name_substring order t :
  contains (extract_company_name order t) t = true.
Proof.
  unfold extract_company_name.
  destruct (find (fun company => contains company t) order) as [c|] eqn:F.
  - apply find_some in F as [_ Hc].
    destruct (contains_app _ _ Hc) as [a [b E]].
    destruct (search_complete (company_pattern c) a c b (company_pattern_self c)) as [m Em].
    rewrite <- E in Em; rewrite Em; apply (search_strip_contains _ _ _ Em).
  - destruct (search company_suffix_pattern t) as [m|] eqn:S;
      [apply (search_strip_contains _ _ _ S) | apply contains_prefix; reflexivity].
Qed.

(** X9: when the affiliation loop leaves an author unflagged and the email
    check fires, the company recorded is the first affiliation string
    verbatim, even one the loop skipped as too short. *)
Theorem email_fallback_first_affiliation order a x rest :
  affiliations a = x :: rest ->
  is_non_academic (affiliation_pass order a) = false ->
  email_domain_signal (email a) = true ->
  classified order a = set_classification a true [x].
Proof.
  intros Ha Hp He; unfold classified; rewrite classify_author_eq; cbv zeta.
  rewrite Hp, He, (affiliation_pass_company order a Hp), Ha; simpl.
  destruct (affiliation_pass_shape order a) as [f [cs E]]; rewrite E; reflexivity.
Qed.

Lemma email_fallback_first_affiliation_witness :
  length (lower (lit "NY")) < 3 /\
  classified COMMON_PHARMA_BIOTECH_COMPANIES short_affiliation_author
  = set_classification short_affiliation_author true [lit "NY"].
Proof.
  split; [simpl; lia|].
  apply (email_fallback_first_affiliation COMMON_PHARMA_BIOTECH_COMPANIES
           short_affiliation_author (lit "NY") []); vm_compute; reflexivity.
Defined.

(** ** [_parse_author] *)

Lemma parse_author_some e a :
  parse_author e = Some a ->
  affiliations a = flat_map (fun t => match t with
                                      | Some a => if is_empty a then [] else [a]
                                      | None => []
                                      end) (affiliation_elem_text e)
  /\ email a = find_email (affiliations a)
  /\ is_non_academic a = false /\ company_affiliations a = [].
Proof.
  unfold parse_author; intro H.
  destruct (last_name_text e), (fore_name_text e), (collective_name_text e);
    try discriminate; injection H as <-; auto.
Qed.

Lemma parse_author_affiliations e a :
  parse_author e = Some a ->
  forall s, In s (affiliations a) <-> In (Some s) (affiliation_elem_text e) /\ s <> [].
Proof.
  intros H s; destruct (parse_author_some e a H) as [Ha _]; rewrite Ha, in_flat_map.
  split.
  - intros [[t|] [Ht Hs]]; [|destruct Hs].
    destruct (is_empty t) eqn:Et; [destruct Hs|]; destruct Hs as [<-|[]].
    split; [exact Ht | destruct t; discriminate].
  - intros [Ht Hs]; exists (Some s); split; [exact Ht|].
    destruct s; [congruence | left; reflexivity].
Qed.

Lemma contains_single c s : contains [c] s = true <-> In c s.
Proof.
  induction s as [|x s IH]; simpl; [split; [discriminate | intros []]|].
  rewrite orb_true_iff, IH, andb_true_r, Ascii.eqb_eq; split; intros [H|H]; auto.
Qed.

Lemma In_lstrip_by p c s : In c s -> p c = false -> In c (lstrip_by p s).
Proof.
  induction s as [|x s IH]; simpl; [intros []|].
  intros Hin Hc; destruct (p x) eqn:Px; [|exact Hin].
  destruct Hin as [<-|Hin]; [congruence | auto].
Qed.

Lemma In_strip_by p c s : In c s -> p c = false -> In c (strip_by p s).
Proof.
  intros Hin Hc; unfold strip_by; apply in_rev; rewrite rev_involutive.
  apply In_lstrip_by; [apply in_rev; rewrite rev_involutive; apply In_lstrip_by|]; auto.
Qed.

Lemma split_go_sub s word w :
  In w (split_go s word) -> exists a b, rev word ++ s = a ++ w ++ b.
Proof.
  revert word; induction s as [|c s IH]; intros word Hw; simpl in Hw.
  - destruct (is_empty word); [destruct Hw|]; destruct Hw as [<-|[]].
    exists [], []; rewrite !app_nil_r; reflexivity.
  - destruct (is_space c).
    + destruct (is_empty word) eqn:Ew.
      * destruct word; [|discriminate].
        destruct (IH [] Hw) as [a [b E]]; exists (c :: a), b; simpl in *; rewrite E; reflexivity.
      * destruct Hw as [<-|Hw]; [exists [], (c :: s); reflexivity|].
        destruct (IH [] Hw) as [a [b E]]; exists (rev word ++ c :: a), b; simpl in E.
        rewrite E, <- app_assoc; reflexivity.
    + destruct (IH (c :: word) Hw) as [a [b E]]; exists a, b; simpl in E.
      rewrite <- app_assoc in E; exact E.
Qed.

Lemma split_go_nospace s word w :
  Forall (fun c => is_space c = false) word -> In w (split_go s word) ->
  Forall (fun c => is_space c = false) w.
Proof.
  revert word; induction s as [|c s IH]; intros word F Hw; simpl in Hw.
  - destruct (is_empty word); [destruct Hw|]; destruct Hw as [<-|[]].
    apply Forall_rev, F.
  - destruct (is_space c) eqn:Sc.
    + destruct (is_empty word); [apply (IH [] (Forall_nil _) Hw)|].
      destruct Hw as [<-|Hw]; [apply Forall_rev, F | apply (IH [] (Forall_nil _) Hw)].
    + apply (IH (c :: word)); [constructor|]; auto.
Qed.

Lemma find_email_spec affs m :
  find_email affs = Some m ->
  exists s e, In s affs /\ In e (py_split s) /\ is_email_token e = true
              /\ m = strip_by email_strip_char e.
Proof.
  induction affs as [|s affs IH]; simpl; [discriminate|].
  destruct (filter is_email_token (py_split s)) as [|e es] eqn:F.
  - intro H; destruct (IH H) as [s' [e [H1 [H2 [H3 H4]]]]]; exists s', e; auto.
  - intro H; injection H as <-; exists s, e.
    assert (He : In e (filter is_email_token (py_split s))) by (rewrite F; left; reflexivity).
    apply filter_In in He as [He1 He2]; auto.
Qed.

Lemma parsed_author_props order e a :
  parse_author e = Some a ->
  let b := classified order a in
  is_non_academic b = negb (is_empty (company_affiliations b))
  /\ Forall (fun c => c <> []) (company_affiliations b).
Proof.
  intro H; destruct (parse_author_some e a H) as [_ [Hm _]].
  pose proof (parse_author_affiliations e a H) as Haff.
  unfold classified; rewrite classify_author_eq; cbv zeta.
  destruct (fold_classify_pass_inv order (affiliations a) (set_classification a false [])
              eq_refl (Forall_nil _)) as [P1 [P2 _]].
  fold (affiliation_pass order a) in P1, P2.
  destruct (is_non_academic (affiliation_pass order a)) eqn:F; simpl;
    [rewrite F; split; assumption|].
  destruct (email_domain_signal (email a)) eqn:Es; simpl; [|rewrite F; split; assumption].
  destruct (email a) as [m|] eqn:Em; [|discriminate].
  assert (C : company_affiliations (affiliation_pass order a) = []).
  { revert P1; destruct (company_affiliations (affiliation_pass order a)); intro P1;
      [reflexivity | discriminate P1]. }
  rewrite C; destruct (affiliations a) as [|x xs] eqn:Ea; [discriminate|]; simpl.
  split; [reflexivity|]; constructor; [|constructor].
  apply (proj2 (proj1 (Haff x) (or_introl eq_refl))).
Qed.

Lemma join_nil sep xs : join sep xs = [] -> forall x, In x xs -> x = [].
Proof.
  induction xs as [|x xs IH]; simpl; [intros _ _ []|].
  destruct xs as [|y ys].
  - intros -> z [<-|[]]; reflexivity.
  - intro E; apply app_eq_nil in E as [-> E]; apply app_eq_nil in E as [_ E].
    intros z [<-|Hz]; [reflexivity | apply (IH E z Hz)].
Qed.

Lemma join_nil_iff sep xs :
  sep <> [] -> (join sep xs = [] <-> xs = [] \/ xs = [[]]).
Proof.
  intro Hs; destruct xs as [|x [|y ys]]; simpl.
  - tauto.
  - split; [intros ->; right; reflexivity | intros [H|H]; congruence].
  - split; [|intros [H|H]; discriminate].
    intro E; apply app_eq_nil in E as [_ E]; apply app_eq_nil in E as [E _]; contradiction.
Qed.

Lemma paper_company_in list_set h paper l c :
  set_listing list_set -> In l (authors paper) -> is_non_academic (h l) = true ->
  In c (company_affiliations (h l)) -> In c (paper_company_affiliations list_set h paper).
Proof.
  intros Hs Hl Hn Hc; unfold paper_company_affiliations; cbv zeta; rewrite fold_append_flat.
  apply (proj2 (Hs _)); simpl; apply in_flat_map; exists l; split; [apply filter_In|]; auto.
Qed.

(** X10: [_parse_author] drops an author exactly when it has neither a last
    name nor a collective name: a fore name alone is not enough. *)
Theorem parse_author_none e :
  parse_author e = None <-> last_name_text e = [] /\ collective_name_text e = [].
Proof.
  unfold parse_author.
  destruct (last_name_text e), (fore_name_text e), (collective_name_text e); simpl;
    split; intro H; try discriminate; try (destruct H; discriminate); auto.
Qed.



(** X12: the email [_parse_author] extracts contains an [@] (stripping
    [.,;<>] from the ends never removes it), has no whitespace, and occurs
    in one of the author's affiliations. *)
Theorem parse_author_email e a m :
  parse_author e = Some a -> email a = Some m ->
  contains (lit "@") m = true
  /\ forallb (fun c => negb (is_space c)) m = true
  /\ exists s, In s (affiliations a) /\ contains m s = true.
Proof.
  intros H Em; destruct (parse_author_some e a H) as [_ [Hm _]].
  rewrite Hm in Em; destruct (find_email_spec _ _ Em) as [s [t [Hs [Ht [Tok ->]]]]].
  apply andb_true_iff in Tok as [At _].
  destruct (split_go_sub s [] t Ht) as [x [y Es]]; simpl in Es.
  pose proof (split_go_nospace s [] t (Forall_nil _) Ht) as Nt.
  split; [apply contains_single, In_strip_by; [apply contains_single, At | reflexivity]|].
  destruct (strip_by_sub email_strip_char t) as [x' [y' Et]].
  revert Et; generalize (strip_by email_strip_char t) as m; intros m Et.
  split.
  - apply forallb_forall; intros c Hc; apply negb_true_iff.
    rewrite Forall_forall in Nt; apply Nt; rewrite Et; apply in_or_app; right;
      apply in_or_app; left; exact Hc.
  - exists s; split; [exact Hs|].
    rewrite Es, Et.
    replace (x ++ (x' ++ m ++ y') ++ y) with ((x ++ x') ++ m ++ (y' ++ y))
      by (rewrite <- !app_assoc; reflexivity).
    apply contains_intro.
Qed.

Lemma parse_author_email_witness :
  exists a, parse_author pfizer_elem = Some a /\ email a = Some (lit "jane.roe@pfizer.com")
  /\ contains (lit "@") (lit "jane.roe@pfizer.com") = true
  /\ forallb (fun c => negb (is_space c)) (lit "jane.roe@pfizer.com") = true
  /\ exists s, In s (affiliations a) /\ contains (lit "jane.roe@pfizer.com") s = true.
Proof.
  destruct (parse_author pfizer_elem) as [a|] eqn:E; [|vm_compute in E; discriminate].
  assert (Em : email a = Some (lit "jane.roe@pfizer.com"))
    by (vm_compute in E; injection E as <-; reflexivity).
  exists a; split; [reflexivity|]; split; [exact Em|].
  exact (parse_author_email pfizer_elem a _ E Em).
Defined.



(** ** The CSV rows of [write_to_csv] *)

(** X14: when the authors come from [_parse_author], every paper that
    [filter_papers_with_company_affiliations] returns gets a non-empty
    "Company Affiliation(s)" column. *)
Theorem csv_company_column_nonempty order list_set papers h r h1 :
  set_listing list_set ->
  (forall p l, In p papers -> In l (authors p) -> exists e, parse_author e = Some (h l)) ->
  filter_papers_with_company_affiliations order papers h = Ok (r, h1) ->
  forall p, In p r -> row_company_affiliations (csv_row list_set h1 p) <> [].
Proof.
  intros Hs Hp Hf p Hr.
  unfold filter_papers_with_company_affiliations in Hf.
  destruct (identify_heap order papers h) as [h2 [E H2]]; rewrite E in Hf; simpl in Hf.
  injection Hf as <- <-.
  rewrite filter_idem in Hr; apply filter_In in Hr as [Hin Hna].
  unfold has_non_academic_authors in Hna; apply existsb_exists in Hna as [l [Hl Hfl]].
  destruct (Hp p l Hin Hl) as [e He].
  destruct (parsed_author_props order e (h l) He) as [P1 P2].
  assert (Hc : h2 l = classified order (h l)) by (rewrite H2, (visited_in papers p l Hin Hl); reflexivity).
  rewrite Hc in Hfl; rewrite Hfl in P1.
  destruct (company_affiliations (classified order (h l))) as [|c cs] eqn:C; [discriminate|].
  assert (Hin' : In c (paper_company_affiliations list_set h2 p)).
  { apply (paper_company_in list_set h2 p l c Hs Hl); rewrite Hc; [exact Hfl | rewrite C; left; reflexivity]. }
  simpl; intro J; apply (Forall_inv P2); exact (join_nil _ _ J c Hin').
Qed.

Lemma csv_company_column_nonempty_witness :
  exists r h1,
    filter_papers_with_company_affiliations COMMON_PHARMA_BIOTECH_COMPANIES [parsed_paper]
      parsed_heap = Ok (r, h1)
    /\ r = [parsed_paper]
    /\ forall p, In p r -> row_company_affiliations (csv_row dedup h1 p) <> [].
Proof.
  destruct (filter_papers_with_company_affiliations COMMON_PHARMA_BIOTECH_COMPANIES
              [parsed_paper] parsed_heap) as [[r h1]|err] eqn:E;
    [|vm_compute in E; discriminate].
  exists r, h1; split; [reflexivity|]; split.
  - vm_compute in E; injection E as Er _; symmetry; exact Er.
  - apply (csv_company_column_nonempty COMMON_PHARMA_BIOTECH_COMPANIES dedup
             [parsed_paper] parsed_heap r h1 dedup_listing); [|exact E].
    intros p l [<-|[]] Hl; destruct Hl as [<-|[<-|[]]];
      [exists academic_elem | exists pfizer_elem]; vm_compute; reflexivity.
Defined.

(** X15: the "Corresponding Author Email" column is empty exactly when no
    author is both marked corresponding and has a non-empty email;
    otherwise it is the first such author's email. *)
Theorem csv_email_column list_set h p :
  (row_corresponding_author_email (csv_row list_set h p) = [] <->
   forall l, In l (authors p) -> is_corresponding_author (h l) && truthy (email (h l)) = false)
  /\ forall e, corresponding_author_email h p = Some e ->
       row_corresponding_author_email (csv_row list_set h p) = e.
Proof.
  unfold csv_row; simpl; unfold corresponding_author_email.
  pose proof (corresponding_email_loop_spec h (authors p)) as S.
  destruct (corresponding_email_loop h (authors p)) as [e|].
  - destruct S as [Ne [pre [l [post [Ea [C1 [C2 _]]]]]]].
    destruct e as [|x e]; [congruence|]; simpl.
    split; [split; [discriminate|] | intros e' He'; injection He' as <-; reflexivity].
    intro H; specialize (H l); rewrite Ea, C1, C2 in H; simpl in H.
    discriminate (H (in_elt l pre post)).
  - split; [split; [intros _; exact S | reflexivity] | discriminate].
Qed.

Lemma csv_email_column_witness :
  (row_corresponding_author_email (csv_row dedup mixed_heap mixed_paper) = [] <->
   forall l, In l (authors mixed_paper) ->
     is_corresponding_author (mixed_heap l) && truthy (email (mixed_heap l)) = false)
  /\ row_corresponding_author_email (csv_row dedup mixed_heap mixed_paper)
     = lit "jane.roe@pfizer.com".
Proof.
  destruct (csv_email_column dedup mixed_heap mixed_paper) as [H1 H2].
  split; [exact H1 | apply H2; reflexivity].
Defined.

(** X16: the "Non-academic Author(s)" column is empty exactly when the
    paper has no non-academic author, or a single one whose name is empty
    (two nameless authors give ["; "]). *)
Theorem csv_authors_column list_set h p :
  row_non_academic_authors (csv_row list_set h p) = [] <->
  non_academic_authors h p = [] \/
  exists l, non_academic_authors h p = [l] /\ name (h l) = [].
Proof.
  unfold csv_row; simpl; rewrite join_nil_iff by discriminate.
  destruct (non_academic_authors h p) as [|l [|l' ls]]; simpl.
  - split; auto.
  - split.
    + intros [H|H]; [discriminate | injection H as H; right; exists l; auto].
    + intros [H|[l0 [H1 H2]]]; [discriminate | injection H1 as <-; rewrite H2; auto].
  - split; [intros [H|H]; discriminate | intros [H|[l0 [H1 _]]]; discriminate].
Qed.

(** *** Dates *)

Lemma py_date_ok y m d dt :
  py_date y m d = DateOk dt ->
  Z.of_nat (year dt) = y /\ Z.of_nat (month dt) = m /\ Z.of_nat (day dt) = d /\
  (1 <= y <= 9999)%Z /\ (1 <= m <= 12)%Z /\ (1 <= d <= days_in_month y m)%Z.
Proof.
  unfold py_date; destruct (negb _); [discriminate|].
  destruct ((1 <=? y)%Z && (y <=? 9999)%Z && (1 <=? m)%Z && (m <=? 12)%Z
            && (1 <=? d)%Z && (d <=? days_in_month y m)%Z) eqn:C; [|discriminate].
  intro H; injection H as <-.
  rewrite !andb_true_iff, !Z.leb_le in C; simpl; rewrite !Z2Nat.id by lia; lia.
Qed.

Lemma py_date_valid y m d dt : py_date y m d = DateOk dt -> valid_date dt = true.
Proof.
  intro H; destruct (py_date_ok _ _ _ _ H) as [Ey [Em [Ed _]]].
  unfold valid_date; rewrite Ey, Em, Ed, H; reflexivity.
Qed.

Lemma valid_date_py_date dt : valid_date dt = true ->
  py_date (Z.of_nat (year dt)) (Z.of_nat (month dt)) (Z.of_nat (day dt)) = DateOk dt.
Proof.
  unfold valid_date; destruct (py_date _ _ _) as [dt'| |] eqn:E; try discriminate.
  intros _; destruct (py_date_ok _ _ _ _ E) as [Ey [Em [Ed _]]].
  destruct dt as [y m d], dt' as [y' m' d']; simpl in *.
  repeat f_equal; lia.
Qed.

Lemma days_in_month_le y m : (days_in_month y m <= 31)%Z.
Proof.
  unfold days_in_month.
  destruct (m =? 2)%Z; [destruct (is_leap y); lia|].
  destruct (_ || _); lia.
Qed.


(** The characters of a number never count as space, sign or underscore,
    and a letter is neither a digit nor one of those. *)
Lemma digit_char c : is_digit c = true ->
  int_space c = false /\ Ascii.eqb c "+"%char = false /\ Ascii.eqb c "-"%char = false.
Proof.
  destruct c as [[] [] [] [] [] [] [] []]; vm_compute;
    first [intro H; discriminate H | intros _; repeat split].
Qed.

Lemma letter_char c : az_ic (lower_char c) = true ->
  int_space c = false /\ is_digit c = false /\
  Ascii.eqb c "+"%char = false /\ Ascii.eqb c "-"%char = false.
Proof.
  destruct c as [[] [] [] [] [] [] [] []]; vm_compute;
    first [intro H; discriminate H | intros _; repeat split].
Qed.

Lemma lstrip_by_all p s : Forall (fun c => p c = false) s -> lstrip_by p s = s.
Proof. intro H; destruct H as [|c s Hc _]; simpl; [|rewrite Hc]; reflexivity. Qed.

Lemma strip_by_all p s : Forall (fun c => p c = false) s -> strip_by p s = s.
Proof.
  intro H; unfold strip_by; rewrite (lstrip_by_all p s H).
  rewrite (lstrip_by_all p (rev s)) by (apply Forall_rev; exact H).
  apply rev_involutive.
Qed.

(** [strip] keeps a first character it does not strip. *)
Lemma strip_by_head p c s : p c = false -> exists s', strip_by p (c :: s) = c :: s'.
Proof.
  intro Hc; unfold strip_by; simpl; rewrite Hc.
  assert (K : forall r, exists r', rev (lstrip_by p (r ++ [c])) = c :: r').
  { induction r as [|x r IH]; simpl.
    - rewrite Hc; exists []; reflexivity.
    - destruct (p x); [exact IH|]; exists (rev r ++ [x]); simpl; rewrite rev_app_distr.
      reflexivity. }
  simpl; apply K.
Qed.

Lemma digit_spec r : r < 10 -> is_digit (digit r) = true /\ digit_value (digit r) = Z.of_nat r.
Proof.
  intro H; unfold is_digit, digit_value, digit, code, in_range.
  rewrite nat_ascii_embedding by lia.
  split; [apply andb_true_iff; split; apply Nat.leb_le; lia | f_equal; lia].
Qed.

Lemma length_zero_pad w n : length (zero_pad w n) = w.
Proof.
  revert n; induction w as [|w IH]; intro n; cbn [zero_pad]; [reflexivity|].
  rewrite length_app, IH; simpl; lia.
Qed.

Lemma zero_pad_digits w n : Forall (fun c => is_digit c = true) (zero_pad w n).
Proof.
  revert n; induction w as [|w IH]; intro n; cbn [zero_pad]; [constructor|].
  apply Forall_app; split; [apply IH|].
  constructor; [apply digit_spec, Nat.mod_upper_bound; discriminate | constructor].
Qed.

Lemma parse_digits_zero_pad w : forall n r acc k b,
  parse_digits (zero_pad w n ++ r) acc k b =
  parse_digits r (acc * 10 ^ Z.of_nat w + Z.of_nat (n mod 10 ^ w))%Z (k + w)
    (match w with 0 => b | S _ => true end).
Proof.
  induction w as [|w IH]; intros n r acc k b.
  - cbn [zero_pad app]; rewrite Nat.add_0_r.
    replace (acc * 10 ^ Z.of_nat 0 + Z.of_nat (n mod 10 ^ 0))%Z with acc
      by (rewrite Nat.pow_0_r, Nat.mod_1_r; simpl; lia).
    reflexivity.
  - cbn [zero_pad]; rewrite <- app_assoc; cbn [app]; rewrite IH.
    assert (Hr : n mod 10 < 10) by (apply Nat.mod_upper_bound; discriminate).
    destruct (digit_spec _ Hr) as [D V]; cbn [parse_digits]; rewrite D, V.
    replace (k + w + 1) with (k + S w) by lia; rewrite <- plus_n_Sm.
    f_equal.
    rewrite Nat.pow_succ_r', Nat.Div0.mod_mul_r, Nat2Z.inj_succ, Z.pow_succ_r by lia.
    rewrite Nat2Z.inj_add, Nat2Z.inj_mul; ring.
Qed.

Lemma py_int_zero_pad w n : 0 < w -> w <= INT_MAX_STR_DIGITS -> n < 10 ^ w ->
  py_int (zero_pad w n) = Some (Z.of_nat n).
Proof.
  intros Hw Hmax Hn.
  pose proof (parse_digits_zero_pad w n [] 0 0 false) as P.
  rewrite app_nil_r in P; simpl in P; rewrite Nat.mod_small in P by exact Hn.
  destruct w as [|w']; [lia|].
  pose proof (zero_pad_digits (S w') n) as Dg.
  unfold py_int; rewrite strip_by_all
    by (eapply Forall_impl; [|exact Dg]; intros c Hc; apply digit_char, Hc).
  destruct (zero_pad (S w') n) as [|c s] eqn:Ez.
  - pose proof (length_zero_pad (S w') n) as L; rewrite Ez in L; discriminate.
  - inversion Dg as [|c' s' Dc _]; subst c' s'.
    destruct (digit_char c Dc) as [_ [Hp Hm]]; rewrite Hp, Hm, P.
    replace (INT_MAX_STR_DIGITS <? S w') with false
      by (symmetry; apply Nat.ltb_ge; exact Hmax).
    f_equal; lia.
Qed.

(** [int(t)] on a text that starts with a letter raises. *)
Lemma py_int_letter c s : az_ic (lower_char c) = true -> py_int (c :: s) = None.
Proof.
  intro H; destruct (letter_char c H) as [Sp [Dg [Hp Hm]]].
  unfold py_int; destruct (strip_by_head _ _ s Sp) as [s' E]; rewrite E, Hp, Hm.
  simpl; rewrite Dg, andb_false_r; reflexivity.
Qed.

Lemma firstn_length_app {A} (a b : list A) : firstn (length a) (a ++ b) = a.
Proof. induction a as [|x a IH]; simpl; [reflexivity | rewrite IH; reflexivity]. Qed.

Lemma skipn_length_app {A} (a b : list A) : skipn (length a) (a ++ b) = b.
Proof. induction a as [|x a IH]; simpl; [reflexivity | exact IH]. Qed.

(** X17: the publication date is always a date [date(...)] accepts: when
    [date.today()] is one, so is every result. *)
Theorem publication_date_valid today pds :
  valid_date today = true -> valid_date (extract_publication_date today pds) = true.
Proof.
  intro Ht; unfold extract_publication_date.
  destruct pds as [|pd rest]; [exact Ht|].
  destruct (match year_text pd with [] => Some 1900%Z | t :: _ => py_int t end)
    as [y|]; [|exact Ht].
  destruct (match day_text pd with [] => Some 1%Z | t :: _ => py_int t end)
    as [d|]; [|exact Ht].
  destruct (py_date y (parse_month (month_text pd)) d) as [dt| |] eqn:D.
  - exact (py_date_valid _ _ _ _ D).
  - destruct (py_date y 1 1) as [dt| |] eqn:D1; [exact (py_date_valid _ _ _ _ D1) | exact Ht | exact Ht].
  - exact Ht.
Qed.

Lemma publication_date_valid_witness :
  valid_date (mkDate 2024 2 29) = true /\
  valid_date (extract_publication_date (mkDate 2024 2 29)
                [mkPubDateElem [lit "2023"] [lit "Feb"] [lit "30"]]) = true.
Proof.
  split; [vm_compute; reflexivity|].
  apply publication_date_valid; vm_compute; reflexivity.
Defined.





(** X20: a month text that starts with the three letters of a month name,
    in any case, gives that month. *)
Theorem month_name_prefix t ts k v :
  In (k, v) month_map -> firstn 3 (lower t) = k -> parse_month (t :: ts) = v.
Proof.
  intros Hk Ht.
  assert (Hv : dict_get month_map k 1%Z = v /\ exists c0 k', k = c0 :: k' /\ az_ic c0 = true)
    by (simpl in Hk; repeat destruct Hk as [Hk|Hk]; try (injection Hk as <- <-);
        try (split; [reflexivity | eexists; eexists; split; reflexivity]); destruct Hk).
  destruct Hv as [Hv [c0 [k' [-> Hc0]]]].
  destruct t as [|c s]; [discriminate|].
  simpl in Ht; injection Ht as Hc Hk'; subst c0.
  unfold parse_month; rewrite py_int_letter by exact Hc0.
  change (firstn 3 (lower (c :: s))) with (lower_char c :: firstn 2 (lower s)).
  subst k'; exact Hv.
Qed.

Lemma month_name_prefix_witness :
  parse_month [lit "SEPTEMBER"] = 9%Z.
Proof.
  apply (month_name_prefix (lit "SEPTEMBER") [] (lit "sep") 9%Z);
    [simpl; do 8 right; left; reflexivity | reflexivity].
Defined.

(** X21: [date.isoformat()] read back by [_extract_publication_date], its
    year, month and day texts cut out of it, gives the same date. *)
Theorem isoformat_round_trip today d rest :
  valid_date d = true ->
  extract_publication_date today
    (mkPubDateElem [firstn 4 (isoformat d)] [firstn 2 (skipn 5 (isoformat d))]
                   [skipn 8 (isoformat d)] :: rest) = d.
Proof.
  intro Hd.
  pose proof (valid_date_py_date d Hd) as P.
  destruct (py_date_ok _ _ _ _ P) as [_ [_ [_ [Hy [Hm Hdd]]]]].
  pose proof (days_in_month_le (Z.of_nat (year d)) (Z.of_nat (month d))) as Hdm.
  assert (Iy : py_int (zero_pad 4 (year d)) = Some (Z.of_nat (year d)))
    by (apply py_int_zero_pad; [lia | unfold INT_MAX_STR_DIGITS; lia | simpl; lia]).
  assert (Im : py_int (zero_pad 2 (month d)) = Some (Z.of_nat (month d)))
    by (apply py_int_zero_pad; [lia | unfold INT_MAX_STR_DIGITS; lia | simpl; lia]).
  assert (Id : py_int (zero_pad 2 (day d)) = Some (Z.of_nat (day d)))
    by (apply py_int_zero_pad; [lia | unfold INT_MAX_STR_DIGITS; lia | simpl; lia]).
  assert (E1 : firstn 4 (isoformat d) = zero_pad 4 (year d)).
  { pose proof (firstn_length_app (zero_pad 4 (year d))
      (lit "-" ++ zero_pad 2 (month d) ++ lit "-" ++ zero_pad 2 (day d))) as F.
    rewrite length_zero_pad in F; exact F. }
  assert (E2 : skipn 5 (isoformat d) = zero_pad 2 (month d) ++ lit "-" ++ zero_pad 2 (day d)).
  { pose proof (skipn_length_app (zero_pad 4 (year d) ++ lit "-")
      (zero_pad 2 (month d) ++ lit "-" ++ zero_pad 2 (day d))) as F.
    rewrite <- app_assoc, length_app, length_zero_pad in F.
    change (length (lit "-")) with 1 in F; exact F. }
  assert (E3 : firstn 2 (skipn 5 (isoformat d)) = zero_pad 2 (month d)).
  { rewrite E2.
    pose proof (firstn_length_app (zero_pad 2 (month d)) (lit "-" ++ zero_pad 2 (day d))) as F.
    rewrite length_zero_pad in F; exact F. }
  assert (E4 : skipn 8 (isoformat d) = zero_pad 2 (day d)).
  { change 8 with (3 + 5); rewrite <- skipn_skipn, E2.
    pose proof (skipn_length_app (zero_pad 2 (month d) ++ lit "-") (zero_pad 2 (day d))) as F.
    rewrite <- app_assoc, length_app, length_zero_pad in F.
    change (length (lit "-")) with 1 in F; exact F. }
  rewrite E1, E3, E4.
  unfold extract_publication_date, parse_month; cbn [year_text month_text day_text].
  rewrite Iy, Im, Id, P; reflexivity.
Qed.

Lemma isoformat_round_trip_witness :
  valid_date (mkDate 2023 7 4) = true /\
  extract_publication_date (mkDate 2024 1 1)
    [mkPubDateElem [firstn 4 (isoformat (mkDate 2023 7 4))]
                   [firstn 2 (skipn 5 (isoformat (mkDate 2023 7 4)))]
                   [skipn 8 (isoformat (mkDate 2023 7 4))]] = mkDate 2023 7 4.
Proof.
  split; [vm_compute; reflexivity|].
  apply isoformat_round_trip; vm_compute; reflexivity.
Defined.

(** *** Requests *)






(** *** Batches *)

Lemma batches_eq ids :
  batches ids = map (fun k => firstn batch_size (skipn (k * batch_size) ids))
                  (seq 0 ((length ids + batch_size - 1) / batch_size)).
Proof. unfold batches; rewrite map_map; reflexivity. Qed.

Lemma chunks_succ n (ids : list str) :
  map (fun k => firstn batch_size (skipn (k * batch_size) ids)) (seq 0 (S n)) =
  firstn batch_size ids ::
  map (fun k => firstn batch_size (skipn (k * batch_size) (skipn batch_size ids))) (seq 0 n).
Proof.
  change (seq 0 (S n)) with (0 :: seq 1 n); rewrite <- seq_shift; cbn [map].
  rewrite map_map; f_equal.
  apply map_ext; intro k; rewrite skipn_skipn.
  replace (k * batch_size + batch_size) with (S k * batch_size) by (unfold batch_size; lia).
  reflexivity.
Qed.

Lemma chunks_concat n : forall ids : list str, length ids <= n * batch_size ->
  concat (map (fun k => firstn batch_size (skipn (k * batch_size) ids)) (seq 0 n)) = ids.
Proof.
  induction n as [|n IH]; intros ids H.
  - destruct ids; [reflexivity | simpl in H; lia].
  - rewrite chunks_succ; cbn [concat]; rewrite IH.
    + apply firstn_skipn.
    + rewrite length_skipn; simpl in H |- *; unfold batch_size in *; lia.
Qed.

Lemma chunks_sizes n : forall ids : list str, n * batch_size < length ids + batch_size ->
  Forall (fun b => 0 < length b <= batch_size)
    (map (fun k => firstn batch_size (skipn (k * batch_size) ids)) (seq 0 n)).
Proof.
  induction n as [|n IH]; intros ids H; [constructor|].
  rewrite chunks_succ; constructor.
  - rewrite length_firstn; simpl in H; unfold batch_size in *; lia.
  - apply IH; rewrite length_skipn; simpl in H; unfold batch_size in *; lia.
Qed.

(** X23: the batches of [fetch_papers_details] hold every PubMed ID once,
    in order, and each holds 1 to [batch_size] IDs. *)
Theorem batches_partition ids :
  concat (batches ids) = ids /\
  Forall (fun b => 0 < length b <= batch_size) (batches ids).
Proof.
  rewrite batches_eq.
  pose proof (Nat.div_mod_eq (length ids + batch_size - 1) batch_size) as D.
  pose proof (Nat.mod_upper_bound (length ids + batch_size - 1) batch_size
                ltac:(unfold batch_size; lia)) as M.
  split; [apply chunks_concat | apply chunks_sizes]; unfold batch_size in *; lia.
Qed.

(** *** [fetch_papers_details] *)

Section FetchProps.

Variables Response Article : Type.
Variable fetch_request : list str -> ApiResult (option Response).
Variable xml_articles : Response -> option (list Article).
Variable parse_article : Article -> option Paper.

Lemma fetch_batches_fail bs acc e :
  fetch_batches Response Article fetch_request xml_articles parse_article bs acc = Fail e ->
  exists b, In b bs /\ fetch_request b = Fail e.
Proof.
  revert acc; induction bs as [|b bs IH]; intros acc H; simpl in H; [discriminate|].
  destruct (fetch_request b) as [o|e'] eqn:F; simpl in H.
  - destruct (IH _ H) as [b' [Hb' Fb']]; exists b'; split; [right; exact Hb' | exact Fb'].
  - injection H as He; exists b; split; [left; reflexivity | congruence].
Qed.

Lemma fetch_batches_done bs acc :
  (forall b, In b bs -> exists o, fetch_request b = Done o) ->
  exists papers,
    fetch_batches Response Article fetch_request xml_articles parse_article bs acc = Done papers.
Proof.
  revert acc; induction bs as [|b bs IH]; intros acc H; simpl; [eauto|].
  destruct (H b (or_introl eq_refl)) as [o Fo]; rewrite Fo; simpl.
  apply IH; intros b' Hb'; apply H; right; exact Hb'.
Qed.

Lemma fetch_batches_from bs acc papers :
  fetch_batches Response Article fetch_request xml_articles parse_article bs acc = Done papers ->
  forall p, In p papers -> In p acc \/ parsed_from fetch_request xml_articles parse_article bs p.
Proof.
  revert acc; induction bs as [|b bs IH]; intros acc H p Hp; simpl in H.
  - injection H as <-; left; exact Hp.
  - destruct (fetch_request b) as [o|e] eqn:F; simpl in H; [|discriminate].
    destruct (IH _ H p Hp) as [Ha|[b' [r [arts [art [Hb' R]]]]]].
    + apply in_app_or in Ha; destruct Ha as [Ha|Ha]; [left; exact Ha|right].
      destruct o as [r|]; [|destruct Ha].
      destruct (xml_articles r) as [arts|] eqn:X; [|destruct Ha].
      apply in_flat_map in Ha; destruct Ha as [art [Hart Hpa]].
      destruct (parse_article art) as [p'|] eqn:P; [|destruct Hpa].
      destruct Hpa as [<-|[]].
      exists b, r, arts, art; simpl; auto.
    + right; exists b', r, arts, art; simpl; tauto.
Qed.

End FetchProps.

(** X24: [fetch_papers_details] raises only when the request of one of
    its batches raises, with that exception, and returns when no request
    raises; every paper it returns was parsed from an article of the XML
    reply to one of its batches. *)
Theorem fetch_papers_details_spec Response Article fetch_request xml_articles
    parse_article ids :
  (forall e, fetch_papers_details Response Article fetch_request xml_articles
               parse_article ids = Fail e ->
     exists b, In b (batches ids) /\ fetch_request b = Fail e) /\
  ((forall b, In b (batches ids) -> exists o, fetch_request b = Done o) ->
     exists papers, fetch_papers_details Response Article fetch_request xml_articles
                      parse_article ids = Done papers) /\
  (forall papers, fetch_papers_details Response Article fetch_request xml_articles
                    parse_article ids = Done papers ->
     forall p, In p papers ->
       parsed_from fetch_request xml_articles parse_article (batches ids) p).
Proof.
  unfold fetch_papers_details; split; [|split].
  - intros e H; destruct (is_empty ids); [discriminate|].
    exact (fetch_batches_fail _ _ _ _ _ _ _ _ H).
  - intro H; destruct (is_empty ids); [eauto|].
    exact (fetch_batches_done _ _ _ _ _ _ _ H).
  - intros papers H p Hp; destruct (is_empty ids) eqn:E.
    + injection H as <-; destruct Hp.
    + destruct (fetch_batches_from _ _ _ _ _ _ _ _ H p Hp) as [[]|Hf]; exact Hf.
Qed.

(** *** [search_pubmed] *)

Lemma firstn_add {A} (a b : nat) (l : list A) :
  firstn a l ++ firstn b (skipn a l) = firstn (a + b) l.
Proof.
  revert l; induction a as [|a IH]; intros [|x l]; simpl; try reflexivity.
  - destruct b; reflexivity.
  - f_equal; apply IH.
Qed.

Lemma search_pages_from all c w q T :
  (T <= Z.of_nat (length all))%Z -> forall n s, (0 <= s)%Z ->
  (T <= s + RESULTS_PER_PAGE * Z.of_nat n)%Z ->
  search_pages (esearch_page_from all c w q) (range_from s RESULTS_PER_PAGE n)
    (T - Z.min s T) (firstn (Z.to_nat (Z.min s T)) all) = Done (firstn (Z.to_nat T) all).
Proof.
  unfold RESULTS_PER_PAGE; intros HT n; induction n as [|n IH]; intros s Hs Hn.
  - simpl; replace (Z.min s T) with T by lia; reflexivity.
  - cbn [range_from search_pages]; unfold esearch_page_from, RESULTS_PER_PAGE; simpl api_bind.
    cbn [idlist]; rewrite length_firstn, length_skipn.
    destruct (Z.lt_ge_cases s T) as [Lt|Ge].
    + rewrite (Z.min_l s T) by lia; rewrite firstn_add.
      replace (Z.to_nat s + Z.to_nat (Z.min 100 (T - s)))
        with (Z.to_nat (Z.min (s + 100) T)) by lia.
      replace (T - s - Z.of_nat (Nat.min (Z.to_nat (Z.min 100 (T - s)))
                                           (length all - Z.to_nat s)))%Z
        with (T - Z.min (s + 100) T)%Z by lia.
      apply IH; lia.
    + rewrite (Z.min_r s T) by lia.
      replace (Z.min 100 (T - T)) with 0%Z by lia; cbn [Z.to_nat firstn Nat.min].
      rewrite app_nil_r.
      replace (T - T - Z.of_nat 0)%Z with (T - Z.min (s + 100) T)%Z by lia.
      replace T with (Z.min (s + 100) T) at 3 by lia.
      apply IH; lia.
Qed.

Lemma firstn_min_length (all : list str) M :
  firstn (Z.to_nat (Z.min (Z.of_nat (length all)) M)) all = firstn (Z.to_nat M) all.
Proof.
  destruct (Z.le_ge_cases M (Z.of_nat (length all))) as [Le|Ge].
  - rewrite Z.min_r by exact Le; reflexivity.
  - rewrite Z.min_l by exact Ge; rewrite !firstn_all2 by lia; reflexivity.
Qed.

(** X25: against a server that answers the first query and every page from
    one result list, with a count that parses and both history keys,
    [search_pubmed] returns the first [max_results] IDs of that list, in
    order, however many pages that takes. *)
Theorem search_pubmed_pages all c w q M :
  py_int c = Some (Z.of_nat (length all)) -> truthy w = true -> truthy q = true ->
  search_pubmed (esearch_first_from all c w q) (esearch_page_from all c w q) M
  = Done (firstn (Z.to_nat M) all).
Proof.
  intros Hc Hw Hq.
  unfold search_pubmed at 1; unfold esearch_first_from at 1; simpl api_bind.
  cbn [count idlist webenv querykey]; rewrite Hc; simpl api_bind.
  rewrite Hw, Hq, length_firstn; cbn [andb].
  unfold RESULTS_PER_PAGE.
  destruct ((100 <? Z.of_nat (length all))%Z
            && (Z.of_nat (Nat.min (Z.to_nat (Z.min 100 M)) (length all)) <? M)%Z) eqn:C.
  - apply andb_true_iff in C; destruct C as [C1 C2]; apply Z.ltb_lt in C1, C2.
    set (T := Z.min (Z.of_nat (length all)) M).
    replace (Z.min 100 M) with (Z.min 100 T) by (unfold T; lia).
    replace (T - Z.of_nat (Nat.min (Z.to_nat (Z.min 100 T)) (length all)))%Z
      with (T - Z.min 100 T)%Z by (unfold T; lia).
    unfold py_range; rewrite search_pages_from.
    + f_equal; apply firstn_min_length.
    + unfold T; lia.
    + lia.
    + pose proof (Z.div_mod (T - 100 + 100 - 1) 100 ltac:(lia)) as D.
      pose proof (Z.mod_pos_bound (T - 100 + 100 - 1) 100 ltac:(lia)) as B.
      unfold RESULTS_PER_PAGE; rewrite Z2Nat.id by (apply Z.div_pos; unfold T in *; lia).
      unfold T in *; lia.
  - f_equal.
    destruct (Z.le_gt_cases M 100) as [Le|Gt].
    + rewrite Z.min_r by exact Le; reflexivity.
    + rewrite Z.min_l by lia.
      apply andb_false_iff in C; destruct C as [C|C]; apply Z.ltb_ge in C;
        rewrite !firstn_all2 by lia; reflexivity.
Qed.

Lemma search_pubmed_pages_witness :
  search_pubmed (esearch_first_from many_ids (lit "250") (Some (lit "MCID_1")) (Some (lit "1")))
    (esearch_page_from many_ids (lit "250") (Some (lit "MCID_1")) (Some (lit "1"))) 230%Z
  = Done (firstn (Z.to_nat 230) many_ids).
Proof.
  apply search_pubmed_pages; vm_compute; reflexivity.
Defined.

(** X26: [search_pubmed] passes a request error on; it returns no ID when
    the reply has no ["esearchresult"]; a count that is not an integer
    raises [ValueError]; without both history keys it returns the IDs of the
    first reply, however large the count. *)
Theorem search_pubmed_edges esearch_first esearch_page M :
  (forall e, esearch_first (Z.min RESULTS_PER_PAGE M) = Fail e ->
     search_pubmed esearch_first esearch_page M = Fail e) /\
  (esearch_first (Z.min RESULTS_PER_PAGE M) = Done None ->
     search_pubmed esearch_first esearch_page M = Done []) /\
  (forall r c, esearch_first (Z.min RESULTS_PER_PAGE M) = Done (Some r) ->
     count r = Some c -> py_int c = None ->
     search_pubmed esearch_first esearch_page M = Fail ValueError) /\
  (forall r, esearch_first (Z.min RESULTS_PER_PAGE M) = Done (Some r) ->
     truthy (webenv r) && truthy (querykey r) = false ->
     (forall c, count r = Some c -> py_int c <> None) ->
     search_pubmed esearch_first esearch_page M
     = Done (match idlist r with Some ids => ids | None => [] end)).
Proof.
  unfold search_pubmed; split; [|split; [|split]].
  - intros e E; rewrite E; reflexivity.
  - intro E; rewrite E; reflexivity.
  - intros r c E Ec Hc; rewrite E; simpl; rewrite Ec, Hc; reflexivity.
  - intros r E W Hc; rewrite E; simpl api_bind.
    destruct (count r) as [c|].
    + destruct (py_int c) as [n|] eqn:P; [|exfalso; exact (Hc c eq_refl P)].
      simpl; rewrite W; reflexivity.
    + simpl; rewrite W; reflexivity.
Qed.

(** ** [fetch_papers] *)

(** X27: [fetch_papers] returns no paper, and leaves the authors alone,
    when the search finds nothing; it raises only the exception of the
    search or of a batch request; every paper it returns came out of the
    XML reply to a batch of the IDs the search found and, after the
    classification, has a non-academic author. *)
Theorem fetch_papers_spec order esearch_first esearch_page Response Article
    (fetch_request : list str -> ApiResult (option Response))
    (xml_articles : Response -> option (list Article))
    (parse_article : Article -> option Paper) M h :
  (search_pubmed esearch_first esearch_page M = Done [] ->
     fetch_papers order esearch_first esearch_page fetch_request xml_articles
       parse_article M h = Done ([], h)) /\
  (forall e, fetch_papers order esearch_first esearch_page fetch_request xml_articles
               parse_article M h = Fail e ->
     search_pubmed esearch_first esearch_page M = Fail e \/
     exists ids b, search_pubmed esearch_first esearch_page M = Done ids /\
       In b (batches ids) /\ fetch_request b = Fail e) /\
  (forall ps h1, fetch_papers order esearch_first esearch_page fetch_request xml_articles
                   parse_article M h = Done (ps, h1) ->
     forall p, In p ps ->
       has_non_academic_authors h1 p = true /\
       exists ids, search_pubmed esearch_first esearch_page M = Done ids /\
         parsed_from fetch_request xml_articles parse_article (batches ids) p).
Proof.
  unfold fetch_papers.
  destruct (search_pubmed esearch_first esearch_page M) as [ids|e] eqn:S; simpl.
  2: { split; [discriminate|split; [intros e' H; left; injection H as <-; reflexivity
                                   | discriminate]]. }
  split; [intro H; injection H as ->; reflexivity|].
  destruct (is_empty ids) eqn:E.
  { split; [discriminate | intros ps h1 H; injection H as <- _; intros p []]. }
  destruct (fetch_papers_details Response Article fetch_request xml_articles parse_article ids)
    as [papers|e] eqn:F; simpl.
  - destruct (identify_heap order papers h) as [h1 [E1 _]].
    unfold filter_papers_with_company_affiliations; rewrite E1; simpl.
    split; [discriminate|].
    intros ps h2 H; injection H as <- <-; intros p Hp.
    rewrite filter_idem in Hp; apply filter_In in Hp; destruct Hp as [Hp Hn].
    split; [exact Hn|]; exists ids; split; [reflexivity|].
    unfold fetch_papers_details in F; rewrite E in F.
    destruct (fetch_batches_from _ _ _ _ _ _ _ _ F p Hp) as [[]|Hf]; exact Hf.
  - split; [|discriminate].
    intros e' H; injection H as <-; right.
    unfold fetch_papers_details in F; rewrite E in F.
    destruct (fetch_batches_fail _ _ _ _ _ _ _ _ F) as [b [Hb Fb]].
    exists ids, b; auto.
Qed.
